(** * Reference encoding of wikibase-api: a shallow embedding

    This development embeds [wikibase_api/models/reference.py] (the class
    [Reference] with its methods [add], [update] and [remove]) and the tables
    of [wikibase_api/utils/values.py], and proves the properties stated about
    them.

    Conventions.
    - A Python [str] whose code points are below 256 is the [string] of those
      code points.
    - A Python value is a [pyval]: [None], a [bool], an [int], a [str], a
      [list], or a [dict] with [str] keys kept in insertion order.  Floats and
      objects that [json.dumps] rejects are outside the model.
    - A raised exception is the [Raise] case of [result].
    - The object [self.api] is a record [api]; the requests handed to
      [self.api.post] are logged in a [world], so that "a descriptor was
      dispatched" is a statement about that log. *)

From Stdlib Require Import ZArith String Ascii List DecimalString DecimalZ DecimalPos.
From stdpp Require Import base option gmap strings list.

(** ** Python values *)

#[warnings="-register-all"]
Inductive pyval : Type :=
| PNone
| PBool (b : bool)
| PInt (z : Z)
| PStr (s : string)
| PList (l : list pyval)
| PDict (d : list (string * pyval)).

(** A [dict] with [str] keys, in insertion order; keys are pairwise distinct. *)
Abbreviation dict := (list (string * pyval)).

(** [d.get(k)] *)
Fixpoint dict_get (k : string) (d : dict) : option pyval :=
  match d with
  | [] => None
  | (k', v) :: d' => if String.eqb k' k then Some v else dict_get k d'
  end.

(** [d[k] = v]: replaces the value in place when [k] is present, appends the
    item otherwise. *)
Fixpoint dict_setitem (k : string) (v : pyval) (d : dict) : dict :=
  match d with
  | [] => [(k, v)]
  | (k', v') :: d' =>
      if String.eqb k' k then (k', v) :: d' else (k', v') :: dict_setitem k v d'
  end.

(** [k in d] *)
Definition dict_has (k : string) (d : dict) : bool :=
  match dict_get k d with Some _ => true | None => false end.

(** [bool(v)]: Python's truth value. *)
Definition py_bool (v : pyval) : bool :=
  match v with
  | PNone => false
  | PBool b => b
  | PInt z => negb (Z.eqb z 0)
  | PStr s => negb (String.eqb s EmptyString)
  | PList l => match l with [] => false | _ => true end
  | PDict d => match d with [] => false | _ => true end
  end.

(** [str(n)] for an [int]: the decimal numeral, with a leading [-] when
    negative. *)
Definition py_str_int (z : Z) : string := NilZero.string_of_int (Z.to_int z).

(** ** Exceptions *)

Inductive exn : Type :=
| InvalidSnakError
| KeyError (key : string)
| TypeError (msg : string)
| TransportError (msg : string).

Inductive result (A : Type) : Type :=
| Return (a : A)
| Raise (e : exn).
Arguments Return {A} a.
Arguments Raise {A} e.

#[global] Instance result_ret : MRet result := fun _ a => Return a.
#[global] Instance result_bind : MBind result := fun _ _ f m =>
  match m with
  | Return a => f a
  | Raise e => Raise e
  end.

(** [d[k]], which raises [KeyError] on a missing key. *)
Definition dict_getitem (k : string) (d : dict) : result pyval :=
  match dict_get k d with
  | Some v => Return v
  | None => Raise (KeyError k)
  end.

(** ** [json.dumps] with its default arguments *)

Definition dquote : ascii := "034"%char.
Definition backslash : ascii := "092"%char.

Definition hex_digit (n : nat) : ascii :=
  if Nat.ltb n 10 then ascii_of_nat (48 + n) else ascii_of_nat (87 + n).

(** [ESCAPE_DCT] and the [\uXXXX] fallback of [py_encode_basestring_ascii]
    ([ensure_ascii=True]): everything outside [' '..'~'], the double quote and
    the backslash are escaped. *)
Definition json_escape_char (c : ascii) : string :=
  let n := nat_of_ascii c in
  let esc (x : ascii) := String backslash (String x EmptyString) in
  if Ascii.eqb c dquote then esc dquote
  else if Ascii.eqb c backslash then esc backslash
  else if Nat.eqb n 10 then esc "n"%char
  else if Nat.eqb n 13 then esc "r"%char
  else if Nat.eqb n 9 then esc "t"%char
  else if Nat.eqb n 8 then esc "b"%char
  else if Nat.eqb n 12 then esc "f"%char
  else if Nat.ltb n 32 || Nat.ltb 126 n then
    String backslash
      (String "u" (String "0" (String "0"
         (String (hex_digit (n / 16)) (String (hex_digit (n mod 16)) EmptyString)))))
  else String c EmptyString.

Fixpoint json_escape (s : string) : string :=
  match s with
  | EmptyString => EmptyString
  | String c s' => json_escape_char c +:+ json_escape s'
  end.

Definition json_string (s : string) : string :=
  String dquote (json_escape s +:+ String dquote EmptyString).

(** The encoder: item separator [", "], key separator [": "], keys in
    insertion order. *)
Fixpoint json_dumps (v : pyval) : string :=
  match v with
  | PNone => "null"
  | PBool b => if b then "true" else "false"
  | PInt z => py_str_int z
  | PStr s => json_string s
  | PList l => "[" +:+ String.concat ", " (map json_dumps l) +:+ "]"
  | PDict d =>
      "{" +:+ String.concat ", "
                (map (fun '(k, x) => json_string k +:+ ": " +:+ json_dumps x) d)
          +:+ "}"
  end.

(** JSON text written with ['] standing for the double quote. *)
Fixpoint json_text (s : string) : string :=
  match s with
  | EmptyString => EmptyString
  | String c s' => String (if Ascii.eqb c "'"%char then dquote else c) (json_text s')
  end.

(** ** Snak validation *)

Definition is_none (v : pyval) : bool :=
  match v with PNone => true | _ => false end.

(** [v == s] for a [str] literal [s]. *)
Definition str_is (s : string) (v : pyval) : bool :=
  match v with PStr t => String.eqb t s | _ => false end.

(** Modelled from the spec: [wikibase_api/utils/validate_value.py], which
    defines [validate_snak], is not among the sources.  Section 4.1 of the
    specification: the check fails with [InvalidSnakError] when the snak type
    is ["novalue"] or ["somevalue"] and the value is not absent, or when the
    snak type is ["value"] and the value is absent; no other validation is
    performed. *)
Definition validate_snak (value snak_type : pyval) : result unit :=
  if (str_is "novalue" snak_type || str_is "somevalue" snak_type)
     && negb (is_none value)
  then Raise InvalidSnakError
  else if str_is "value" snak_type && is_none value
  then Raise InvalidSnakError
  else Return tt.

(** ** The transport *)

(** Request parameters: a [dict] from [str] to [str], read by key only. *)
Abbreviation params := (gmap string string).

(** The requests handed to [self.api.post] so far, oldest first. *)
Abbreviation world := (list params).

(** [self.api]: what [post] answers to a request, given the earlier requests;
    it may raise. *)
Record api : Type := { api_respond : world -> params -> result pyval }.

(** Computations that may raise and may dispatch requests. *)
Definition M (A : Type) : Type := world -> result A * world.

#[global] Instance M_ret : MRet M := fun _ a w => (Return a, w).
#[global] Instance M_bind : MBind M := fun _ _ f m w =>
  match m w with
  | (Return a, w') => f a w'
  | (Raise e, w') => (Raise e, w')
  end.

Definition lift {A : Type} (r : result A) : M A := fun w => (r, w).

(** [self.api.post(params)] *)
Definition post (self : api) (p : params) : M pyval :=
  fun w => (api_respond self w p, w ++ [p]).

(** The requests a computation dispatched when started in [w]. *)
Definition dispatched {A : Type} (m : M A) (w : world) : world := (m w).2.

(** ** [Reference.add] *)

Definition snak_type_default : string := "value".

(** Lines 50-52: the local [snak]. *)
Definition add_snak (property_id : string) (value data_type : pyval)
    (snak_type : string) : dict :=
  let snak :=
    [("snaktype", PStr snak_type); ("property", PStr property_id);
     ("datavalue", value)] in
  if py_bool data_type then dict_setitem "datatype" data_type snak else snak.

(** [if index is not None: params["index"] = str(index)] *)
Definition with_index (index : option Z) (p : params) : params :=
  match index with
  | Some i => <["index" := py_str_int i]> p
  | None => p
  end.

Definition add (self : api) (claim_id property_id : string)
    (value data_type : pyval) (snak_type : string) (index : option Z) : M pyval :=
  _ ← lift (validate_snak value (PStr snak_type));
  let snak := add_snak property_id value data_type snak_type in
  let snak_encoded := json_dumps (PDict [(property_id, PList [PDict snak])]) in
  let p : params :=
    {[ "action" := "wbsetreference"; "statement" := claim_id;
       "snaks" := snak_encoded ]} in
  post self (with_index index p).

(** ** [Reference.update] *)

(** Hashable values, as used for the keys of [snak_dict]. *)
Inductive pykey : Type :=
| KNone
| KBool (b : bool)
| KInt (z : Z)
| KStr (s : string).

(** Hashing [v]; a [list] or a [dict] is unhashable. *)
Definition as_key (v : pyval) : result pykey :=
  match v with
  | PNone => Return KNone
  | PBool b => Return (KBool b)
  | PInt z => Return (KInt z)
  | PStr s => Return (KStr s)
  | PList _ => Raise (TypeError "unhashable type: 'list'")
  | PDict _ => Raise (TypeError "unhashable type: 'dict'")
  end.

Definition key_value (k : pykey) : pyval :=
  match k with
  | KNone => PNone
  | KBool b => PBool b
  | KInt z => PInt z
  | KStr s => PStr s
  end.

(** Python's [==] on keys identifies [True] with [1] and [False] with [0]. *)
Inductive key_class : Type :=
| CNone
| CNum (z : Z)
| CStr (s : string).

#[global] Instance key_class_eq_dec : EqDecision key_class.
Proof. solve_decision. Defined.

Definition class_of (k : pykey) : key_class :=
  match k with
  | KNone => CNone
  | KBool b => CNum (if b then 1 else 0)
  | KInt z => CNum z
  | KStr s => CStr s
  end.

(** [a == b] *)
Definition pykey_eqb (a b : pykey) : bool :=
  bool_decide (class_of a = class_of b).

(** How [json.dumps] writes a [dict] key. *)
Definition json_key (k : pykey) : string :=
  match k with
  | KNone => "null"
  | KBool b => if b then "true" else "false"
  | KInt z => py_str_int z
  | KStr s => s
  end.

(** [defaultdict(lambda: [])] holding lists of snaks, in insertion order. *)
Abbreviation snak_groups := (list (pykey * list dict)).

(** [snak_dict[key].append(snak)]: a missing key is first bound to [[]]. *)
Fixpoint dd_append (key : pykey) (snak : dict) (d : snak_groups) : snak_groups :=
  match d with
  | [] => [(key, [snak])]
  | (k, xs) :: d' =>
      if pykey_eqb k key then (k, xs ++ [snak]) :: d'
      else (k, xs) :: dd_append key snak d'
  end.

(** The value [json.dumps] sees for [snak_dict]. *)
Definition groups_value (d : snak_groups) : pyval :=
  PDict (map (fun '(k, xs) => (json_key k, PList (map PDict xs))) d).

(** The body of the [for] loop, lines 87-90, on the pair
    [(snak_dict, snaks_order)]. *)
Definition update_step (st : snak_groups * list pykey) (snak : dict)
    : result (snak_groups * list pykey) :=
  let '(snak_dict, snaks_order) := st in
  datavalue ← dict_getitem "datavalue" snak;
  snaktype ← dict_getitem "snaktype" snak;
  _ ← validate_snak datavalue snaktype;
  property ← dict_getitem "property" snak;
  key ← as_key property;
  let snak_dict := dd_append key snak snak_dict in
  let snaks_order :=
    match last snaks_order with
    | None => snaks_order ++ [key]
    | Some k => if negb (pykey_eqb k key) then snaks_order ++ [key] else snaks_order
    end in
  Return (snak_dict, snaks_order).

Fixpoint update_loop (snaks : list dict) (st : snak_groups * list pykey)
    : result (snak_groups * list pykey) :=
  match snaks with
  | [] => Return st
  | snak :: rest => st' ← update_step st snak; update_loop rest st'
  end.

(** Lines 84-91: the grouper. *)
Definition group_snaks (snaks : list dict) : result (snak_groups * list pykey) :=
  update_loop snaks ([], []).

Definition update (self : api) (claim_id reference_id : string)
    (snaks : list dict) (index : option Z) : M pyval :=
  '(snak_dict, snaks_order) ← lift (group_snaks snaks);
  let p : params :=
    {[ "action" := "wbsetreference"; "statement" := claim_id;
       "reference" := reference_id;
       "snaks" := json_dumps (groups_value snak_dict);
       "snaks-order" := json_dumps (PList (map key_value snaks_order)) ]} in
  post self (with_index index p).

(** ** [Reference.remove] *)

(** [reference_ids] is a [str] or a sequence of [str]. *)
Inductive reference_ids : Type :=
| OneId (s : string)
| ManyIds (l : list string).

Definition remove (self : api) (claim_id : string) (ids : reference_ids) : M pyval :=
  let ids_encoded :=
    match ids with
    | OneId s => s
    | ManyIds l => String.concat "|" l
    end in
  let p : params :=
    {[ "action" := "wbremovereferences"; "statement" := claim_id;
       "references" := ids_encoded ]} in
  post self p.

(** * Notions used in the statements *)

(** ** Descriptors and sample inputs *)

(** The descriptor [add] builds once validation has passed. *)
Definition add_request (claim_id property_id : string) (value data_type : pyval)
    (snak_type : string) (index : option Z) : params :=
  with_index index
    {[ "action" := "wbsetreference"; "statement" := claim_id;
       "snaks" :=
         json_dumps
           (PDict [(property_id,
                    PList [PDict (add_snak property_id value data_type snak_type)])]) ]}.

(** The descriptor [update] builds from the grouper's two results. *)
Definition update_request (claim_id reference_id : string)
    (snak_dict : snak_groups) (snaks_order : list pykey) (index : option Z) : params :=
  with_index index
    {[ "action" := "wbsetreference"; "statement" := claim_id;
       "reference" := reference_id;
       "snaks" := json_dumps (groups_value snak_dict);
       "snaks-order" := json_dumps (PList (map key_value snaks_order)) ]}.

(** A transport that accepts every request; used for closed examples. *)
Definition accepting_api : api :=
  {| api_respond := fun _ _ => Return (PDict [("success", PInt 1)]) |}.

(** A snak object as [add] writes it, for examples. *)
Definition example_snak (property snak_type : string) (value : pyval) : dict :=
  [("snaktype", PStr snak_type); ("property", PStr property); ("datavalue", value)].

(** The snaks [{P1,a}], [{P2,b}], [{P1,c}]. *)
Definition snaks_P1_P2_P1 : list dict :=
  [example_snak "P1" "value" (PStr "a"); example_snak "P2" "value" (PStr "b");
   example_snak "P1" "value" (PStr "c")].

(** ** Snaks as the loop of [update] meets them *)

(** The snak's validation is reached and raises. *)
Definition fails_validation (snak : dict) : Prop :=
  ∃ datavalue snaktype : pyval,
    dict_get "datavalue" snak = Some datavalue
    ∧ dict_get "snaktype" snak = Some snaktype
    ∧ validate_snak datavalue snaktype = Raise InvalidSnakError.

(** A snak shaped as the docstring of [update] asks: the keys ["property"],
    ["datavalue"] and ["snaktype"] are present and the property is hashable. *)
Definition well_formed (snak : dict) : Prop :=
  is_Some (dict_get "datavalue" snak)
  ∧ is_Some (dict_get "snaktype" snak)
  ∧ ∃ (property : pyval) (key : pykey),
      dict_get "property" snak = Some property ∧ as_key property = Return key.

(** Two keys that Python's [==] identifies. *)
Definition same_key (a b : pykey) : Prop := class_of a = class_of b.

(** The snak passes the loop body, its property hashing to [key]. *)
Definition accepted (snak : dict) (key : pykey) : Prop :=
  ∃ datavalue snaktype property : pyval,
    dict_get "datavalue" snak = Some datavalue
    ∧ dict_get "snaktype" snak = Some snaktype
    ∧ validate_snak datavalue snaktype = Return ()
    ∧ dict_get "property" snak = Some property
    ∧ as_key property = Return key.

(** ** What the grouper is to return *)

(** The keys of [keys] that differ from the last key kept, [prev] at first:
    one key for each run of equal keys. *)
Fixpoint drop_repeats (prev : pykey) (keys : list pykey) : list pykey :=
  match keys with
  | [] => []
  | k :: keys' =>
      if pykey_eqb prev k then drop_repeats prev keys' else k :: drop_repeats k keys'
  end.

(** One key for each run of consecutive equal keys: the first of the run. *)
Definition collapse_runs (keys : list pykey) : list pykey :=
  match keys with
  | [] => []
  | k :: keys' => k :: drop_repeats k keys'
  end.

(** Following the specification's words: each key once, at the position where
    it is first seen. *)
Fixpoint first_occurrences (keys : list pykey) : list pykey :=
  match keys with
  | [] => []
  | k :: keys' =>
      k :: List.filter (fun k' => negb (pykey_eqb k k')) (first_occurrences keys')
  end.

(** No key comes back after a different key. *)
Definition clustered (keys : list pykey) : Prop :=
  ∀ (l1 : list pykey) (a : pykey) (l2 : list pykey) (b : pykey) (l3 : list pykey),
    keys = l1 ++ a :: l2 ++ b :: l3 → same_key a b → Forall (same_key a) l2.

(** The snaks filed under [k], in input order. *)
Definition members (k : pykey) (ks : list (pykey * dict)) : list dict :=
  map snd (List.filter (fun kv => pykey_eqb k kv.1) ks).

(** Following the specification's words: one group for each distinct key, in
    first-seen order, holding the snaks of that key in input order. *)
Definition grouped (ks : list (pykey * dict)) : snak_groups :=
  map (fun k => (k, members k ks)) (first_occurrences (map fst ks)).

(** ** The state of the loop *)

(** Lines 89-90 on [snaks_order]. *)
Definition push_order (key : pykey) (snaks_order : list pykey) : list pykey :=
  match last snaks_order with
  | None => snaks_order ++ [key]
  | Some k => if negb (pykey_eqb k key) then snaks_order ++ [key] else snaks_order
  end.

(** Line 88 on [snak_dict], for a snak paired with its key. *)
Definition file_snak (g : snak_groups) (kv : pykey * dict) : snak_groups :=
  dd_append kv.1 kv.2 g.

(** The order list after the loop has run over [keys] from [o]. *)
Definition order_from (o : list pykey) (keys : list pykey) : list pykey :=
  match last o with
  | None => o ++ collapse_runs keys
  | Some k => o ++ drop_repeats k keys
  end.

(** [k] is [==] to a key of [l]. *)
Definition key_in (k : pykey) (l : list pykey) : bool :=
  existsb (fun k' => pykey_eqb k' k) l.

(** No key is followed by a key [==] to it. *)
Fixpoint no_adjacent_repeat (l : list pykey) : Prop :=
  match l with
  | a :: (b :: _) as l' => ¬ same_key a b ∧ no_adjacent_repeat l'
  | _ => True
  end.

(** Proves [clustered] for a list given in full. *)
Ltac clustered_by_cases :=
  let E := fresh "E" in
  intros ? ? ? ? ? E ?;
  repeat match type of E with
    | _ = ?l1 ++ _ => is_var l1; destruct l1; simpl in E; try discriminate E
    | _ = _ :: _ => injection E as <- E
    end;
  try discriminate E;
  repeat constructor;
  try (exfalso; unfold same_key in *; simpl in *; congruence).

(** ** Notions for the further properties *)

(** A property value that cannot be hashed. *)
Definition unhashable (v : pyval) : Prop :=
  match v with
  | PList _ | PDict _ => True
  | _ => False
  end.

(** The key ["index"] when an index is given. *)
Definition index_keys (index : option Z) : gset string :=
  match index with
  | Some _ => {[ "index" ]}
  | None => ∅
  end.

(** The string holds the delimiter ["|"]. *)
Fixpoint has_pipe (s : string) : bool :=
  match s with
  | EmptyString => false
  | String c s' => Ascii.eqb c "|"%char || has_pipe s'
  end.

(** Reading a joined field back: the pieces between the delimiters. *)
Fixpoint split_pipe (s : string) : list string :=
  match s with
  | EmptyString => [EmptyString]
  | String c s' =>
      if Ascii.eqb c "|"%char then EmptyString :: split_pipe s'
      else match split_pipe s' with
           | [] => [String c EmptyString]
           | x :: xs => String c x :: xs
           end
  end.

(** The characters from the space to the tilde. *)
Definition printable (c : ascii) : bool :=
  Nat.leb 32 (nat_of_ascii c) && Nat.leb (nat_of_ascii c) 126.

Fixpoint all_printable (s : string) : bool :=
  match s with
  | EmptyString => true
  | String c s' => printable c && all_printable s'
  end.

(** A group as the grouper builds it: its first snak hashes to the key of
    the group, the others to keys that [==] identifies with it. *)
Definition group_ok (kv : pykey * list dict) : Prop :=
  ∃ (s : dict) (xs : list dict),
    kv.2 = s :: xs
    ∧ accepted s kv.1
    ∧ Forall (fun s' => ∃ k', accepted s' k' ∧ same_key kv.1 k') xs.

(** ** The tables of [wikibase_api/utils/values.py] *)

(** The attributes of an entity that can be requested. *)
Definition possible_attributes : list string :=
  ["info"; "sitelinks"; "aliases"; "labels"; "descriptions"; "claims";
   "datatype"].

(** The entity types. *)
Definition possible_entities : list string :=
  ["item"; "property"; "lexeme"; "form"; "sense"].

(** The language codes, as listed. *)
Definition possible_languages : list string :=
  ["aa"; "ab"; "abs"; "ace"; "ady"; "ady-cyrl"; "aeb"; "aeb-arab"; "aeb-latn";
   "af"; "ak"; "aln"; "als"; "am"; "an"; "ang"; "anp"; "ar"; "arc"; "arn";
   "arq"; "ary"; "arz"; "as"; "ase"; "ast"; "atj"; "av"; "avk"; "awa"; "ay";
   "az"; "azb"; "ba"; "ban"; "bar"; "bat-smg"; "bbc"; "bbc-latn"; "bcc"; "bcl";
   "be"; "be-tarask"; "be-x-old"; "bg"; "bgn"; "bh"; "bho"; "bi"; "bjn"; "bm";
   "bn"; "bo"; "bpy"; "bqi"; "br"; "brh"; "bs"; "btm"; "bto"; "bug"; "bxr";
   "ca"; "cbk-zam"; "cdo"; "ce"; "ceb"; "ch"; "cho"; "chr"; "chy"; "ckb"; "co";
   "cps"; "cr"; "crh"; "crh-cyrl"; "crh-latn"; "cs"; "csb"; "cu"; "cv"; "cy";
   "da"; "de"; "de-at"; "de-ch"; "de-formal"; "din"; "diq"; "dsb"; "dtp";
   "dty"; "dv"; "dz"; "ee"; "egl"; "el"; "eml"; "en"; "en-ca"; "en-gb"; "eo";
   "es"; "es-419"; "es-formal"; "et"; "eu"; "ext"; "fa"; "ff"; "fi"; "fit";
   "fiu-vro"; "fj"; "fo"; "fr"; "frc"; "frp"; "frr"; "fur"; "fy"; "ga"; "gag";
   "gan"; "gan-hans"; "gan-hant"; "gcr"; "gd"; "gl"; "glk"; "gn"; "gom";
   "gom-deva"; "gom-latn"; "gor"; "got"; "grc"; "gsw"; "gu"; "gv"; "ha"; "hak";
   "haw"; "he"; "hi"; "hif"; "hif-latn"; "hil"; "ho"; "hr"; "hrx"; "hsb"; "ht";
   "hu"; "hu-formal"; "hy"; "hyw"; "hz"; "ia"; "id"; "ie"; "ig"; "ii"; "ik";
   "ike-cans"; "ike-latn"; "ilo"; "inh"; "io"; "is"; "it"; "iu"; "ja"; "jam";
   "jbo"; "jut"; "jv"; "ka"; "kaa"; "kab"; "kbd"; "kbd-cyrl"; "kbp"; "kea";
   "kg"; "khw"; "ki"; "kiu"; "kj"; "kk"; "kk-arab"; "kk-cn"; "kk-cyrl";
   "kk-kz"; "kk-latn"; "kk-tr"; "kl"; "km"; "kn"; "ko"; "ko-kp"; "koi"; "kr";
   "krc"; "kri"; "krj"; "krl"; "ks"; "ks-arab"; "ks-deva"; "ksh"; "ku";
   "ku-arab"; "ku-latn"; "kum"; "kv"; "kw"; "ky"; "la"; "lad"; "lb"; "lbe";
   "lez"; "lfn"; "lg"; "li"; "lij"; "liv"; "lki"; "lmo"; "ln"; "lo"; "loz";
   "lrc"; "lt"; "ltg"; "lus"; "luz"; "lv"; "lzh"; "lzz"; "mai"; "map-bms";
   "mdf"; "mg"; "mh"; "mhr"; "mi"; "min"; "mk"; "ml"; "mn"; "mni"; "mnw"; "mo";
   "mr"; "mrj"; "ms"; "mt"; "mus"; "mwl"; "my"; "myv"; "mzn"; "na"; "nah";
   "nan"; "nap"; "nb"; "nds"; "nds-nl"; "ne"; "new"; "ng"; "niu"; "nl";
   "nl-informal"; "nn"; "no"; "nod"; "nov"; "nrm"; "nso"; "nv"; "ny"; "nys";
   "oc"; "olo"; "om"; "or"; "os"; "ota"; "pa"; "pag"; "pam"; "pap"; "pcd";
   "pdc"; "pdt"; "pfl"; "pi"; "pih"; "pl"; "pms"; "pnb"; "pnt"; "prg"; "ps";
   "pt"; "pt-br"; "qu"; "qug"; "rgn"; "rif"; "rm"; "rmy"; "rn"; "ro";
   "roa-rup"; "roa-tara"; "ru"; "rue"; "rup"; "ruq"; "ruq-cyrl"; "ruq-latn";
   "rw"; "rwr"; "sa"; "sah"; "sat"; "sc"; "scn"; "sco"; "sd"; "sdc"; "sdh";
   "se"; "sei"; "ses"; "sg"; "sgs"; "sh"; "shi"; "shi-latn"; "shi-tfng"; "shn";
   "shy-latn"; "si"; "simple"; "sje"; "sk"; "skr"; "skr-arab"; "sl"; "sli";
   "sm"; "sma"; "smj"; "sn"; "so"; "sq"; "sr"; "sr-ec"; "sr-el"; "srn"; "srq";
   "ss"; "st"; "stq"; "sty"; "su"; "sv"; "sw"; "szl"; "ta"; "tay"; "tcy"; "te";
   "tet"; "tg"; "tg-cyrl"; "tg-latn"; "th"; "ti"; "tk"; "tl"; "tly"; "tn";
   "to"; "tpi"; "tr"; "tru"; "ts"; "tt"; "tt-cyrl"; "tt-latn"; "tum"; "tw";
   "ty"; "tyv"; "tzm"; "udm"; "ug"; "ug-arab"; "ug-latn"; "uk"; "ur"; "uz";
   "uz-cyrl"; "uz-latn"; "ve"; "vec"; "vep"; "vi"; "vls"; "vmf"; "vo"; "vot";
   "vro"; "wa"; "war"; "wo"; "wuu"; "xal"; "xh"; "xmf"; "yi"; "yo"; "yue";
   "za"; "zea"; "zgh"; "zh"; "zh-classical"; "zh-cn"; "zh-hans"; "zh-hant";
   "zh-hk"; "zh-min-nan"; "zh-mo"; "zh-my"; "zh-sg"; "zh-tw"; "zh-yue"; "zu"].

(** A lowercase letter, a digit or a hyphen. *)
Definition code_char (c : ascii) : bool :=
  let n := nat_of_ascii c in
  (Nat.leb 97 n && Nat.leb n 122) || (Nat.leb 48 n && Nat.leb n 57) || Nat.eqb n 45.

(** A non-empty string of such characters. *)
Definition is_code (s : string) : bool :=
  match s with
  | EmptyString => false
  | _ => forallb code_char (list_ascii_of_string s)
  end.

(** Each string comes before the next one. *)
Fixpoint strictly_increasing (l : list string) : bool :=
  match l with
  | a :: (b :: _) as l' => String.ltb a b && strictly_increasing l'
  | _ => true
  end.

(** No string of the list occurs again later in it. *)
Fixpoint no_repeat (l : list string) : bool :=
  match l with
  | [] => true
  | s :: l' => negb (existsb (String.eqb s) l') && no_repeat l'
  end.

(** Solves an equation between descriptors by comparing them key by key. *)
Ltac map_lookup_cases :=
  apply map_eq; intros ?k; unfold with_index;
  repeat (rewrite lookup_insert || rewrite lookup_singleton);
  repeat case_decide; subst; try reflexivity; try congruence.

(** * Properties *)

(** ** Unfolding the three operations *)

Lemma add_unfold self claim_id property_id value data_type snak_type index w :
  add self claim_id property_id value data_type snak_type index w =
    match validate_snak value (PStr snak_type) with
    | Raise e => (Raise e, w)
    | Return _ =>
        let q := add_request claim_id property_id value data_type snak_type index in
        (api_respond self w q, w ++ [q])
    end.
Proof.
  unfold add, mbind, M_bind, lift.
  destruct (validate_snak value (PStr snak_type)); reflexivity.
Qed.

Lemma update_unfold self claim_id reference_id snaks index w :
  update self claim_id reference_id snaks index w =
    match group_snaks snaks with
    | Raise e => (Raise e, w)
    | Return (snak_dict, snaks_order) =>
        let q := update_request claim_id reference_id snak_dict snaks_order index in
        (api_respond self w q, w ++ [q])
    end.
Proof.
  unfold update, mbind, M_bind, lift.
  destruct (group_snaks snaks) as [[g o]|e]; reflexivity.
Qed.

Lemma with_index_some i (q : params) :
  with_index (Some i) q !! "index" = Some (py_str_int i).
Proof. apply lookup_insert_eq. Qed.

Lemma with_index_other index (q : params) (k : string) :
  k ≠ "index" → with_index index q !! k = q !! k.
Proof.
  intros Hk. destruct index as [i|]; simpl; [|reflexivity].
  apply lookup_insert_ne. congruence.
Qed.

(** [str] of an [int] reads back as that [int]. *)
Lemma py_str_int_decimal (z : Z) :
  Z.of_int <$> NilZero.int_of_string (py_str_int z) = Some z.
Proof.
  unfold py_str_int.
  rewrite NilZero.isi.
  - simpl. f_equal. apply DecimalZ.of_to.
  - destruct z as [|p|p]; simpl; try discriminate.
    intros [= E]. exact (DecimalPos.Unsigned.to_uint_nonnil p E).
  - destruct z as [|p|p]; simpl; try discriminate.
    intros [= E]. exact (DecimalPos.Unsigned.to_uint_nonnil p E).
Qed.

(** ** The value validator *)

Lemma is_none_true (v : pyval) : is_none v = true ↔ v = PNone.
Proof. destruct v; simpl; split; congruence. Qed.

Lemma str_is_true (s : string) (v : pyval) : str_is s v = true ↔ v = PStr s.
Proof.
  destruct v; simpl; try (split; congruence).
  rewrite String.eqb_eq. split; congruence.
Qed.

(** The validator raises nothing but [InvalidSnakError]. *)
Lemma validate_snak_cases (value snak_type : pyval) :
  validate_snak value snak_type = Raise InvalidSnakError
  ∨ validate_snak value snak_type = Return ().
Proof.
  unfold validate_snak.
  destruct (_ && _); [left; reflexivity|].
  destruct (_ && _); [left | right]; reflexivity.
Qed.

Lemma is_none_false (v : pyval) : is_none v = false ↔ v ≠ PNone.
Proof. rewrite <- is_none_true. symmetry. apply not_true_iff_false. Qed.

(** The two tests of the validator, as one boolean. *)
Lemma validate_snak_raises (value snak_type : pyval) :
  validate_snak value snak_type = Raise InvalidSnakError ↔
  (str_is "novalue" snak_type || str_is "somevalue" snak_type)
    && negb (is_none value)
  || str_is "value" snak_type && is_none value = true.
Proof.
  unfold validate_snak.
  destruct (_ && negb _); [split; reflexivity|].
  destruct (_ && _); simpl; split; (reflexivity || discriminate).
Qed.

(** C3: [validate_snak value snak_type] raises [InvalidSnakError] exactly when
    the snak type is ["novalue"] or ["somevalue"] and the value is present, or
    the snak type is ["value"] and the value is absent; in every other case it
    returns normally, whatever the payload is. *)
Theorem validate_snak_raises_iff (value snak_type : pyval) :
  (validate_snak value snak_type = Raise InvalidSnakError ↔
     ((snak_type = PStr "novalue" ∨ snak_type = PStr "somevalue") ∧ value ≠ PNone)
     ∨ (snak_type = PStr "value" ∧ value = PNone))
  ∧ (validate_snak value snak_type ≠ Raise InvalidSnakError →
     validate_snak value snak_type = Return ()).
Proof.
  split.
  - rewrite validate_snak_raises.
    rewrite orb_true_iff, !andb_true_iff, orb_true_iff, negb_true_iff.
    rewrite !str_is_true, is_none_true, is_none_false. reflexivity.
  - intros Hok. destruct (validate_snak_cases value snak_type); [contradiction|].
    assumption.
Qed.

Lemma validate_snak_raises_iff_witness :
  validate_snak (PStr "x") (PStr "value") = Return ()
  ∧ validate_snak (PStr "x") (PStr "novalue") = Raise InvalidSnakError.
Proof.
  split.
  - apply (validate_snak_raises_iff (PStr "x") (PStr "value")). discriminate.
  - apply (validate_snak_raises_iff (PStr "x") (PStr "novalue")).
    left. split; [left; reflexivity | discriminate].
Defined.

(** ** [add]: the snak object *)

(** The keys of the snak object do not depend on the property or the value:
    [datavalue] is always among them. *)
Lemma add_snak_datavalue property_id value data_type snak_type :
  dict_get "datavalue" (add_snak property_id value data_type snak_type) = Some value.
Proof. unfold add_snak. destruct (py_bool data_type); reflexivity. Qed.

(** C2, as stated, fails: for [add("Q2$ABC", "P999", None, None,
    snak_type="novalue")] the snak object has a [datavalue] key (bound to
    [None], written [null]). *)
Lemma add_novalue_has_datavalue_key :
  dict_has "datavalue" (add_snak "P999" PNone PNone "novalue") = true
  ∧ dispatched (add accepting_api "Q2$ABC" "P999" PNone PNone "novalue" None) []
    = [ {[ "action" := "wbsetreference"; "statement" := "Q2$ABC";
           "snaks" :=
             json_text
               "{'P999': [{'snaktype': 'novalue', 'property': 'P999', 'datavalue': null}]}" ]} ].
Proof. split; vm_compute; reflexivity. Qed.

(** C2, amended: [add(claim_id, property_id, None, None, snak_type="novalue")]
    passes validation and dispatches its descriptor; the snak object in it has
    exactly the keys [snaktype], [property] and [datavalue], the last bound to
    [None] (serialized as [null]), and no [datatype] key. *)
Theorem add_novalue_snak_object (self : api) (claim_id property_id : string) (w : world) :
  let snak := add_snak property_id PNone PNone "novalue" in
  let q : params :=
    {[ "action" := "wbsetreference"; "statement" := claim_id;
       "snaks" := json_dumps (PDict [(property_id, PList [PDict snak])]) ]} in
  add self claim_id property_id PNone PNone "novalue" None w
    = (api_respond self w q, w ++ [q])
  ∧ snak = [("snaktype", PStr "novalue"); ("property", PStr property_id);
            ("datavalue", PNone)]
  ∧ dict_get "datavalue" snak = Some PNone
  ∧ dict_get "datatype" snak = None
  ∧ json_dumps (PDict snak)
    = "{" +:+ String.concat ", "
                [json_string "snaktype" +:+ ": " +:+ json_string "novalue";
                 json_string "property" +:+ ": " +:+ json_string property_id;
                 json_string "datavalue" +:+ ": null"]
          +:+ "}".
Proof.
  intros snak q. split; [rewrite add_unfold; reflexivity|].
  split; [reflexivity|]. split; [reflexivity|]. split; reflexivity.
Qed.

(** C6: [add("Q2$ABC", "P854", "https://example.com", "url")] dispatches the
    descriptor with action [wbsetreference], statement [Q2$ABC] and a [snaks]
    payload whose only entry, under the key [P854], is a list holding one snak
    object with [snaktype = "value"], [property = "P854"],
    [datavalue = "https://example.com"] and [datatype = "url"]. *)
Theorem add_url_reference (self : api) (w : world) :
  let snak :=
    [("snaktype", PStr "value"); ("property", PStr "P854");
     ("datavalue", PStr "https://example.com"); ("datatype", PStr "url")] in
  let q : params :=
    {[ "action" := "wbsetreference"; "statement" := "Q2$ABC";
       "snaks" := json_dumps (PDict [("P854", PList [PDict snak])]) ]} in
  add self "Q2$ABC" "P854" (PStr "https://example.com") (PStr "url")
      snak_type_default None w
    = (api_respond self w q, w ++ [q])
  ∧ q !! "action" = Some "wbsetreference"
  ∧ q !! "statement" = Some "Q2$ABC"
  ∧ q !! "snaks"
    = Some (json_text
        "{'P854': [{'snaktype': 'value', 'property': 'P854', 'datavalue': 'https://example.com', 'datatype': 'url'}]}")
  ∧ dom q = {[ "action"; "statement"; "snaks" ]}.
Proof.
  intros snak q. split; [rewrite add_unfold; reflexivity|].
  repeat apply conj; vm_compute; reflexivity.
Qed.

(** C9: [add] leaves the [datatype] key out of the snak object whenever
    [data_type] is falsy, not only when it is [None]; in particular for the
    empty string. *)
Theorem add_omits_falsy_datatype (self : api) (claim_id property_id : string)
    (value data_type : pyval) (snak_type : string) (index : option Z) (w : world) :
  py_bool data_type = false →
  add_snak property_id value data_type snak_type
    = [("snaktype", PStr snak_type); ("property", PStr property_id);
       ("datavalue", value)]
  ∧ dict_has "datatype" (add_snak property_id value data_type snak_type) = false
  ∧ add self claim_id property_id value data_type snak_type index w
    = add self claim_id property_id value PNone snak_type index w.
Proof.
  intros Hfalsy.
  assert (Hsnak : add_snak property_id value data_type snak_type
                  = add_snak property_id value PNone snak_type).
  { unfold add_snak. rewrite Hfalsy. reflexivity. }
  split; [|split].
  - rewrite Hsnak. reflexivity.
  - rewrite Hsnak. reflexivity.
  - rewrite !add_unfold. unfold add_request. rewrite Hsnak. reflexivity.
Qed.

Lemma add_omits_falsy_datatype_witness :
  py_bool (PStr EmptyString) = false
  ∧ dict_has "datatype" (add_snak "P854" (PStr "x") (PStr EmptyString) "value") = false
  ∧ dispatched (add accepting_api "Q2$ABC" "P854" (PStr "x") (PStr EmptyString) "value" None) []
    = [ {[ "action" := "wbsetreference"; "statement" := "Q2$ABC";
           "snaks" :=
             json_text "{'P854': [{'snaktype': 'value', 'property': 'P854', 'datavalue': 'x'}]}" ]} ].
Proof.
  pose proof (add_omits_falsy_datatype accepting_api "Q2$ABC" "P854" (PStr "x")
                (PStr EmptyString) "value" None [] eq_refl) as (_ & Hkey & Hrun).
  split; [reflexivity|]. split; [exact Hkey|].
  unfold dispatched. rewrite Hrun. vm_compute. reflexivity.
Defined.

(** ** The [index] parameter *)

(** C7: in [add] and in [update], a provided integer [index] (0 included)
    appears in the descriptor as the parameter ["index"], holding the decimal
    numeral of that integer; without an [index] the descriptor has no
    ["index"] key; every other parameter is the same with and without it. *)
Theorem index_parameter (self : api) (claim_id : string) (w : world) :
  (∀ (property_id : string) (value data_type : pyval) (snak_type : string)
     (q0 : params),
      dispatched (add self claim_id property_id value data_type snak_type None) w
        = w ++ [q0] →
      q0 !! "index" = None
      ∧ ∀ i : Z, ∃ q : params,
          dispatched
            (add self claim_id property_id value data_type snak_type (Some i)) w
            = w ++ [q]
          ∧ q !! "index" = Some (py_str_int i)
          ∧ Z.of_int <$> NilZero.int_of_string (py_str_int i) = Some i
          ∧ ∀ k : string, k ≠ "index" → q !! k = q0 !! k)
  ∧ (∀ (reference_id : string) (snaks : list dict) (q0 : params),
        dispatched (update self claim_id reference_id snaks None) w = w ++ [q0] →
        q0 !! "index" = None
        ∧ ∀ i : Z, ∃ q : params,
            dispatched (update self claim_id reference_id snaks (Some i)) w
              = w ++ [q]
            ∧ q !! "index" = Some (py_str_int i)
            ∧ Z.of_int <$> NilZero.int_of_string (py_str_int i) = Some i
            ∧ ∀ k : string, k ≠ "index" → q !! k = q0 !! k)
  ∧ py_str_int 0 = "0".
Proof.
  unfold dispatched. split; [|split; [|reflexivity]].
  - intros property_id value data_type snak_type q0 Hadd.
    rewrite add_unfold in Hadd.
    destruct (validate_snak value (PStr snak_type)) as [[]|e] eqn:Hv; simpl in Hadd.
    + apply app_inv_head in Hadd. injection Hadd as <-.
      split; [vm_compute; reflexivity|].
      intros i. eexists. rewrite add_unfold, Hv. cbv beta iota zeta.
      split; [reflexivity|]. split; [apply with_index_some|].
      split; [apply py_str_int_decimal|].
      intros k Hk. unfold add_request. rewrite !with_index_other by exact Hk.
      reflexivity.
    + exfalso. apply (f_equal length) in Hadd.
      rewrite length_app in Hadd. simpl in Hadd. lia.
  - intros reference_id snaks q0 Hupd.
    rewrite update_unfold in Hupd.
    destruct (group_snaks snaks) as [[g o]|e] eqn:Hg; simpl in Hupd.
    + apply app_inv_head in Hupd. injection Hupd as <-.
      split; [vm_compute; reflexivity|].
      intros i. eexists. rewrite update_unfold, Hg. cbv beta iota zeta.
      split; [reflexivity|]. split; [apply with_index_some|].
      split; [apply py_str_int_decimal|].
      intros k Hk. unfold update_request. rewrite !with_index_other by exact Hk.
      reflexivity.
    + exfalso. apply (f_equal length) in Hupd.
      rewrite length_app in Hupd. simpl in Hupd. lia.
Qed.

Lemma index_parameter_witness :
  (∃ q : params,
      dispatched
        (add accepting_api "Q2$ABC" "P854" (PStr "x") PNone "value" (Some 0%Z)) []
        = [q]
      ∧ q !! "index" = Some "0"
      ∧ q !! "statement" = Some "Q2$ABC")
  ∧ (∃ q : params,
        dispatched (update accepting_api "Q2$ABC" "9d5f" [] (Some 12%Z)) [] = [q]
        ∧ q !! "index" = Some "12"
        ∧ q !! "reference" = Some "9d5f").
Proof.
  destruct (index_parameter accepting_api "Q2$ABC" []) as (Hadd & Hupd & _).
  split.
  - destruct (Hadd "P854" (PStr "x") PNone "value"
                (add_request "Q2$ABC" "P854" (PStr "x") PNone "value" None) eq_refl)
      as [_ Hidx].
    destruct (Hidx 0%Z) as (q & Hq & Hi & _ & Hother).
    exists q. split; [exact Hq|]. split; [exact Hi|].
    rewrite Hother by discriminate. vm_compute. reflexivity.
  - destruct (Hupd "9d5f" [] (update_request "Q2$ABC" "9d5f" [] [] None) eq_refl)
      as [_ Hidx].
    destruct (Hidx 12%Z) as (q & Hq & Hi & _ & Hother).
    exists q. split; [exact Hq|]. split; [exact Hi|].
    rewrite Hother by discriminate. vm_compute. reflexivity.
Defined.

(** ** [update] on no snaks *)

(** C8: [update] with an empty sequence of snaks does not raise: it dispatches
    a descriptor whose serialized group is ["{}"] and whose serialized order
    list is ["[]"]. *)
Theorem update_empty_snaks (self : api) (claim_id reference_id : string)
    (index : option Z) (w : world) :
  let q : params :=
    with_index index
      {[ "action" := "wbsetreference"; "statement" := claim_id;
         "reference" := reference_id; "snaks" := "{}"; "snaks-order" := "[]" ]} in
  group_snaks [] = Return ([], [])
  ∧ update self claim_id reference_id [] index w = (api_respond self w q, w ++ [q])
  ∧ q !! "snaks" = Some "{}"
  ∧ q !! "snaks-order" = Some "[]".
Proof.
  intros q. split; [reflexivity|]. split; [rewrite update_unfold; reflexivity|].
  unfold q. rewrite !with_index_other by discriminate.
  split; vm_compute; reflexivity.
Qed.

(** ** [remove] *)

Lemma remove_unfold self claim_id ids w :
  remove self claim_id ids w =
    let q : params :=
      {[ "action" := "wbremovereferences"; "statement" := claim_id;
         "references" := match ids with
                         | OneId s => s
                         | ManyIds l => String.concat "|" l
                         end ]} in
    (api_respond self w q, w ++ [q]).
Proof. reflexivity. Qed.

Lemma remove_references_field claim_id (ids : string) :
  ({[ "action" := "wbremovereferences"; "statement" := claim_id;
      "references" := ids ]} : params) !! "references" = Some ids.
Proof. vm_compute. reflexivity. Qed.

(** C5: for a string [s], [remove(claim_id, s)] and [remove(claim_id, [s])]
    dispatch the same descriptor, whose [references] field is [s]; for a
    sequence of identifiers the [references] field is the identifiers joined
    with ["|"], so [["H1", "H2"]] gives ["H1|H2"]. *)
Theorem remove_joins_identifiers (self : api) (claim_id : string) (w : world) :
  (∀ s : string, ∃ q : params,
      remove self claim_id (OneId s) w = (api_respond self w q, w ++ [q])
      ∧ remove self claim_id (ManyIds [s]) w = (api_respond self w q, w ++ [q])
      ∧ q !! "references" = Some s)
  ∧ (∀ l : list string, ∃ q : params,
        remove self claim_id (ManyIds l) w = (api_respond self w q, w ++ [q])
        ∧ q !! "references" = Some (String.concat "|" l))
  ∧ (∃ q : params,
        remove self claim_id (ManyIds ["H1"; "H2"]) w = (api_respond self w q, w ++ [q])
        ∧ q !! "references" = Some "H1|H2").
Proof.
  split; [|split].
  - intros s. eexists. split; [apply remove_unfold|].
    split; [reflexivity | apply remove_references_field].
  - intros l. eexists. split; [apply remove_unfold | apply remove_references_field].
  - eexists. split; [apply remove_unfold | apply remove_references_field].
Qed.

(** C10: [remove] with an empty sequence of identifiers does not raise: it
    dispatches a descriptor with action [wbremovereferences] whose
    [references] field is the empty string. *)
Theorem remove_no_identifiers (self : api) (claim_id : string) (w : world) :
  let q : params :=
    {[ "action" := "wbremovereferences"; "statement" := claim_id;
       "references" := EmptyString ]} in
  remove self claim_id (ManyIds []) w = (api_respond self w q, w ++ [q])
  ∧ q !! "action" = Some "wbremovereferences"
  ∧ q !! "references" = Some EmptyString.
Proof.
  intros q. split; [apply remove_unfold|]. split; vm_compute; reflexivity.
Qed.

(** ** Validation failures *)

Lemma update_step_fails st snak :
  fails_validation snak → update_step st snak = Raise InvalidSnakError.
Proof.
  intros (dv & ty & Hdv & Hty & Hval). destruct st as [g o].
  unfold update_step, dict_getitem. rewrite Hdv, Hty. simpl. rewrite Hval.
  reflexivity.
Qed.

(** On a well-formed snak the loop body either raises [InvalidSnakError],
    because validation failed, or completes. *)
Lemma update_step_well_formed st snak :
  well_formed snak →
  update_step st snak = Raise InvalidSnakError ∨ ∃ st', update_step st snak = Return st'.
Proof.
  intros ([dv Hdv] & [ty Hty] & p & k & Hp & Hk). destruct st as [g o].
  unfold update_step, dict_getitem. rewrite Hdv, Hty, Hp. simpl.
  destruct (validate_snak_cases dv ty) as [Hval|Hval]; rewrite Hval; simpl.
  - left. reflexivity.
  - rewrite Hk. simpl. right. eexists. reflexivity.
Qed.

Lemma update_loop_app pre post st :
  update_loop (pre ++ post) st = (st' ← update_loop pre st; update_loop post st').
Proof.
  revert st. induction pre as [|snak pre IH]; intros st; simpl; [reflexivity|].
  destruct (update_step st snak) as [st'|e]; simpl; [apply IH | reflexivity].
Qed.

Lemma update_loop_reaches_failure pre snak post st0 st :
  update_loop pre st0 = Return st →
  fails_validation snak →
  update_loop (pre ++ snak :: post) st0 = Raise InvalidSnakError.
Proof.
  intros Hpre Hfail. rewrite update_loop_app, Hpre. simpl.
  rewrite (update_step_fails _ _ Hfail). reflexivity.
Qed.

Lemma update_loop_well_formed_failure snaks st :
  Forall well_formed snaks →
  Exists fails_validation snaks →
  update_loop snaks st = Raise InvalidSnakError.
Proof.
  intros Hwf. revert st. induction Hwf as [|snak rest Hsnak _ IH]; intros st Hex.
  - inversion Hex.
  - simpl. destruct (update_step_well_formed st snak Hsnak) as [Hraise|[st' Hst']].
    + rewrite Hraise. reflexivity.
    + rewrite Hst'. simpl. apply IH.
      inversion Hex as [? ? Hhere|? ? Hlater]; subst; [|exact Hlater].
      rewrite (update_step_fails _ _ Hhere) in Hst'. discriminate.
Qed.

(** C4: when a snak fails validation, [add] and [update] end with
    [InvalidSnakError], uncaught, and the log of dispatched requests is as it
    was: no descriptor reached the transport.  For [update] the failing snak
    is either the one the loop reaches after completing the snaks before it,
    or any snak of a well-formed sequence. *)
Theorem validation_failure_aborts (self : api)
    (claim_id property_id reference_id : string) (index : option Z) (w : world) :
  (∀ (value data_type : pyval) (snak_type : string),
      validate_snak value (PStr snak_type) = Raise InvalidSnakError →
      add self claim_id property_id value data_type snak_type index w
        = (Raise InvalidSnakError, w))
  ∧ (∀ (pre post : list dict) (snak : dict) st,
        update_loop pre ([], []) = Return st →
        fails_validation snak →
        update self claim_id reference_id (pre ++ snak :: post) index w
          = (Raise InvalidSnakError, w))
  ∧ (∀ snaks : list dict,
        Forall well_formed snaks →
        Exists fails_validation snaks →
        update self claim_id reference_id snaks index w = (Raise InvalidSnakError, w)).
Proof.
  split; [|split].
  - intros value data_type snak_type Hval. rewrite add_unfold, Hval. reflexivity.
  - intros pre post snak st Hpre Hfail. rewrite update_unfold. unfold group_snaks.
    rewrite (update_loop_reaches_failure _ _ _ _ _ Hpre Hfail). reflexivity.
  - intros snaks Hwf Hex. rewrite update_unfold. unfold group_snaks.
    rewrite (update_loop_well_formed_failure _ _ Hwf Hex). reflexivity.
Qed.

Lemma validation_failure_aborts_witness :
  add accepting_api "Q2$ABC" "P999" (PStr "x") PNone "novalue" None []
    = (Raise InvalidSnakError, [])
  ∧ update accepting_api "Q2$ABC" "9d5f"
      [example_snak "P1" "value" (PStr "a"); example_snak "P2" "somevalue" (PStr "b")]
      None []
    = (Raise InvalidSnakError, []).
Proof.
  destruct (validation_failure_aborts accepting_api "Q2$ABC" "P999" "9d5f" None [])
    as (Hadd & _ & Hupd).
  split.
  - apply Hadd. reflexivity.
  - apply Hupd.
    + repeat constructor; simpl; eauto.
    + apply Exists_cons_tl, Exists_cons_hd.
      exists (PStr "b"), (PStr "somevalue"). repeat split.
Defined.

(** ** The grouper *)

Lemma pykey_eqb_true (a b : pykey) : pykey_eqb a b = true ↔ same_key a b.
Proof. unfold pykey_eqb. apply bool_decide_eq_true. Qed.

Lemma pykey_eqb_false (a b : pykey) : pykey_eqb a b = false ↔ ¬ same_key a b.
Proof. unfold pykey_eqb. apply bool_decide_eq_false. Qed.

Lemma pykey_eqb_refl (a : pykey) : pykey_eqb a a = true.
Proof. apply pykey_eqb_true. reflexivity. Qed.

(** Both sides of [==] hold the same class, so one may replace the other. *)
Lemma pykey_eqb_congr (a b c : pykey) :
  same_key a b → pykey_eqb a c = pykey_eqb b c.
Proof. unfold pykey_eqb, same_key. intros ->. reflexivity. Qed.

(** *** The loop on accepted snaks *)

Lemma update_step_accepted g o snak key :
  accepted snak key →
  update_step (g, o) snak = Return (dd_append key snak g, push_order key o).
Proof.
  intros (dv & ty & p & Hdv & Hty & Hval & Hp & Hk).
  unfold update_step, dict_getitem. rewrite Hdv, Hty. simpl. rewrite Hval. simpl.
  rewrite Hp. simpl. rewrite Hk. reflexivity.
Qed.

Lemma update_loop_accepted snaks keys :
  Forall2 accepted snaks keys →
  ∀ g o, update_loop snaks (g, o)
         = Return (fold_left file_snak (zip keys snaks) g, order_from o keys).
Proof.
  induction 1 as [|snak key snaks keys Hacc _ IH]; intros g o.
  - simpl. unfold order_from. destruct (last o); rewrite app_nil_r; reflexivity.
  - cbn [update_loop]. rewrite (update_step_accepted _ _ _ _ Hacc).
    cbn [mbind result_bind]. rewrite IH.
    do 2 f_equal. unfold order_from, push_order.
    destruct (last o) as [k|] eqn:Hlast.
    + simpl. destruct (pykey_eqb k key) eqn:Heq; simpl.
      * rewrite Hlast. reflexivity.
      * rewrite last_snoc, <- app_assoc. reflexivity.
    + rewrite last_snoc, <- app_assoc. reflexivity.
Qed.

(** *** First occurrences *)

Lemma key_in_false k l :
  key_in k l = false ↔ ∀ k', In k' l → pykey_eqb k' k = false.
Proof.
  unfold key_in. induction l as [|a l IH]; simpl.
  - split; [intros _ k' [] | reflexivity].
  - rewrite orb_false_iff, IH. split.
    + intros [Ha Hl] k' [<-|Hin]; [exact Ha | exact (Hl _ Hin)].
    + intros H. split; [apply H; left; reflexivity | intros k' Hin; apply H; right; exact Hin].
Qed.

Lemma first_occurrences_incl keys k : In k (first_occurrences keys) → In k keys.
Proof.
  revert k. induction keys as [|a keys IH]; intros k; simpl; [tauto|].
  intros [<-|Hin]; [left; reflexivity|].
  right. apply IH. apply List.filter_In in Hin. tauto.
Qed.

Lemma key_in_first_occurrences k keys :
  key_in k (first_occurrences keys) = key_in k keys.
Proof.
  induction keys as [|a keys IH]; [reflexivity|].
  unfold key_in in *. simpl.
  destruct (pykey_eqb a k) eqn:Hak; [reflexivity|]. simpl.
  rewrite <- IH. clear IH. induction (first_occurrences keys) as [|b l IHl]; [reflexivity|].
  simpl. destruct (pykey_eqb a b) eqn:Hab; simpl.
  - rewrite IHl.
    assert (pykey_eqb b k = false) as ->; [|reflexivity].
    apply pykey_eqb_true in Hab. rewrite <- (pykey_eqb_congr a b k Hab). exact Hak.
  - rewrite IHl. reflexivity.
Qed.

Lemma first_occurrences_snoc keys k :
  first_occurrences (keys ++ [k])
  = if key_in k keys then first_occurrences keys else first_occurrences keys ++ [k].
Proof.
  induction keys as [|a keys IH]; [reflexivity|].
  simpl. rewrite IH. unfold key_in. simpl. fold (key_in k keys).
  destruct (pykey_eqb a k) eqn:Hak; simpl.
  - destruct (key_in k keys); [reflexivity|].
    rewrite List.filter_app. simpl. rewrite Hak. simpl. rewrite app_nil_r. reflexivity.
  - destruct (key_in k keys); [reflexivity|].
    rewrite List.filter_app. simpl. rewrite Hak. reflexivity.
Qed.

Lemma NoDup_map_filter {A B : Type} (f : A → B) (p : A → bool) (l : list A) :
  List.NoDup (map f l) → List.NoDup (map f (List.filter p l)).
Proof.
  induction l as [|a l IH]; simpl; [trivial|].
  intros Hnd. apply List.NoDup_cons_iff in Hnd as [Hnotin Hnd].
  destruct (p a); simpl; [|apply IH, Hnd].
  apply List.NoDup_cons_iff. split; [|apply IH, Hnd].
  intros Hin. apply Hnotin.
  apply in_map_iff in Hin as (x & Hfx & Hx). apply in_map_iff.
  exists x. split; [exact Hfx|]. apply List.filter_In in Hx. tauto.
Qed.

(** No two keys of [first_occurrences] are identified by [==]. *)
Lemma first_occurrences_NoDup keys :
  List.NoDup (map class_of (first_occurrences keys)).
Proof.
  induction keys as [|a keys IH]; simpl; [constructor|].
  apply List.NoDup_cons_iff. split; [|apply (NoDup_map_filter class_of), IH].
  intros Hin. apply in_map_iff in Hin as (x & Hclass & Hx).
  apply List.filter_In in Hx as [_ Hx].
  apply negb_true_iff, pykey_eqb_false in Hx. apply Hx. symmetry. exact Hclass.
Qed.

(** Every key of the input is represented in [first_occurrences]. *)
Lemma first_occurrences_complete keys k :
  In k keys → ∃ k', In k' (first_occurrences keys) ∧ same_key k' k.
Proof.
  intros Hin.
  destruct (key_in k (first_occurrences keys)) eqn:Hk.
  - unfold key_in in Hk. apply existsb_exists in Hk as (k' & Hk' & Heq).
    exists k'. split; [exact Hk' | apply pykey_eqb_true, Heq].
  - rewrite key_in_first_occurrences in Hk.
    pose proof (proj1 (key_in_false k keys) Hk k Hin) as Hself.
    rewrite pykey_eqb_refl in Hself. discriminate.
Qed.

(** *** Clustered input *)

Lemma clustered_tail k l : clustered (k :: l) → clustered l.
Proof.
  intros H l1 a l2 b l3 -> Hab.
  apply (H (k :: l1) a l2 b l3); [reflexivity | exact Hab].
Qed.

Lemma clustered_skip k k' l : clustered (k :: k' :: l) → clustered (k :: l).
Proof.
  intros H l1 a l2 b l3 E Hab. destruct l1 as [|x l1]; simpl in E.
  - injection E as <- ->.
    specialize (H [] k (k' :: l2) b l3 eq_refl Hab).
    apply Forall_cons in H as [_ H]. exact H.
  - injection E as <- ->.
    apply (H (k :: k' :: l1) a l2 b l3); [reflexivity | exact Hab].
Qed.

Lemma clustered_no_return k k' l x :
  clustered (k :: k' :: l) → pykey_eqb k k' = false → In x l → pykey_eqb k x = false.
Proof.
  intros H Hne Hin. apply pykey_eqb_false. intros Hkx.
  apply in_split in Hin as (l2 & l3 & ->).
  specialize (H [] k (k' :: l2) x l3 eq_refl Hkx).
  apply Forall_cons in H as [Hkk' _].
  apply pykey_eqb_false in Hne. contradiction.
Qed.

Lemma drop_repeats_clustered l :
  ∀ k, clustered (k :: l) →
       drop_repeats k l
       = List.filter (fun k' => negb (pykey_eqb k k')) (first_occurrences l).
Proof.
  induction l as [|k' l IH]; intros k Hcl; [reflexivity|].
  simpl. destruct (pykey_eqb k k') eqn:Hkk'; simpl.
  - rewrite (IH k (clustered_skip _ _ _ Hcl)).
    apply pykey_eqb_true in Hkk'.
    rewrite (List.filter_ext (fun x => negb (pykey_eqb k' x))
               (fun x => negb (pykey_eqb k x)))
      by (intros x; rewrite (pykey_eqb_congr k k' x Hkk'); reflexivity).
    symmetry. apply List.forallb_filter_id, List.forallb_filter.
  - f_equal. rewrite (IH k' (clustered_tail _ _ Hcl)).
    symmetry. apply List.forallb_filter_id. apply forallb_forall.
    intros x Hx. apply List.filter_In in Hx as [Hx _].
    apply first_occurrences_incl in Hx.
    rewrite (clustered_no_return k k' l x Hcl Hkk' Hx). reflexivity.
Qed.

(** On clustered input the two readings of "first seen" agree. *)
Lemma collapse_runs_clustered keys :
  clustered keys → collapse_runs keys = first_occurrences keys.
Proof.
  destruct keys as [|k l]; [reflexivity|].
  intros Hcl. simpl. f_equal. apply drop_repeats_clustered, Hcl.
Qed.

(** *** The groups *)

Lemma pykey_eqb_sym (a b : pykey) : pykey_eqb a b = pykey_eqb b a.
Proof.
  destruct (pykey_eqb b a) eqn:Hba.
  - apply pykey_eqb_true. symmetry. apply pykey_eqb_true, Hba.
  - apply pykey_eqb_false. intros Hab.
    apply pykey_eqb_false in Hba. apply Hba. symmetry. exact Hab.
Qed.

Lemma members_snoc k' ks k s :
  members k' (ks ++ [(k, s)])
  = members k' ks ++ (if pykey_eqb k' k then [s] else []).
Proof.
  unfold members. rewrite List.filter_app, map_app. simpl.
  destruct (pykey_eqb k' k); reflexivity.
Qed.

Lemma members_none k ks : key_in k (map fst ks) = false → members k ks = [].
Proof.
  intros Hk. unfold members.
  rewrite (List.filter_ext_in _ (fun _ => false)); [rewrite List.filter_false; reflexivity|].
  intros [k' s] Hin. simpl. rewrite pykey_eqb_sym.
  apply (proj1 (key_in_false k (map fst ks)) Hk).
  apply in_map_iff. exists (k', s). split; [reflexivity | exact Hin].
Qed.

(** Filing a snak in groups whose keys are pairwise different under [==]:
    it joins the group of its key, or opens a new group at the end. *)
Lemma dd_append_groups (F : pykey → list dict) (L : list pykey) k s :
  List.NoDup (map class_of L) →
  dd_append k s (map (fun k' => (k', F k')) L)
  = if key_in k L
    then map (fun k' => (k', F k' ++ (if pykey_eqb k' k then [s] else []))) L
    else map (fun k' => (k', F k')) L ++ [(k, [s])].
Proof.
  induction L as [|a L IH]; intros Hnd; [reflexivity|].
  simpl in Hnd. apply List.NoDup_cons_iff in Hnd as [Hnotin Hnd].
  unfold key_in. simpl. fold (key_in k L).
  destruct (pykey_eqb a k) eqn:Hak; simpl.
  - f_equal. apply map_ext_in. intros k' Hk'.
    assert (pykey_eqb k' k = false) as ->; [|rewrite app_nil_r; reflexivity].
    apply pykey_eqb_false. intros Hk'k. apply Hnotin.
    apply pykey_eqb_true in Hak. unfold same_key in *.
    rewrite Hak, <- Hk'k. apply in_map, Hk'.
  - rewrite (IH Hnd). destruct (key_in k L); simpl; rewrite ?app_nil_r; reflexivity.
Qed.

Lemma grouped_snoc ks k s : grouped (ks ++ [(k, s)]) = dd_append k s (grouped ks).
Proof.
  unfold grouped. rewrite map_app. simpl.
  rewrite first_occurrences_snoc.
  rewrite dd_append_groups by apply first_occurrences_NoDup.
  rewrite key_in_first_occurrences.
  destruct (key_in k (map fst ks)) eqn:Hin.
  - apply map_ext. intros k'. rewrite members_snoc. reflexivity.
  - rewrite map_app. simpl. f_equal.
    + apply map_ext_in. intros k' Hk'. rewrite members_snoc.
      rewrite (proj1 (key_in_false k (map fst ks)) Hin k'
                 (first_occurrences_incl _ _ Hk')).
      rewrite app_nil_r. reflexivity.
    + rewrite members_snoc, (members_none _ _ Hin), pykey_eqb_refl. reflexivity.
Qed.

Lemma fold_file_snak ks : fold_left file_snak ks [] = grouped ks.
Proof.
  induction ks as [|[k s] ks IH] using rev_ind; [reflexivity|].
  rewrite fold_left_app. simpl. rewrite IH. unfold file_snak. simpl.
  symmetry. apply grouped_snoc.
Qed.

(** The grouper on accepted snaks. *)
Lemma group_snaks_accepted snaks keys :
  Forall2 accepted snaks keys →
  group_snaks snaks = Return (grouped (zip keys snaks), collapse_runs keys).
Proof.
  intros Hacc. unfold group_snaks.
  rewrite (update_loop_accepted _ _ Hacc). rewrite fold_file_snak. reflexivity.
Qed.

(** *** The order list *)

Lemma drop_repeats_no_adjacent_repeat keys :
  ∀ prev, no_adjacent_repeat (prev :: drop_repeats prev keys).
Proof.
  induction keys as [|k keys IH]; intros prev; [exact I|].
  cbn [drop_repeats]. destruct (pykey_eqb prev k) eqn:Heq; [apply IH|].
  split; [apply pykey_eqb_false, Heq | apply IH].
Qed.

Lemma collapse_runs_no_adjacent_repeat keys : no_adjacent_repeat (collapse_runs keys).
Proof. destruct keys as [|k keys]; [exact I | apply drop_repeats_no_adjacent_repeat]. Qed.

(** C1, as stated, fails: on [{P1,a}], [{P2,b}], [{P1,c}] the order list is
    [P1, P2, P1]; it holds [P1] twice, and is serialized as such. *)
Lemma order_list_repeats_property :
  (∃ groups : snak_groups,
      group_snaks snaks_P1_P2_P1 = Return (groups, [KStr "P1"; KStr "P2"; KStr "P1"]))
  ∧ ¬ List.NoDup [KStr "P1"; KStr "P2"; KStr "P1"]
  ∧ ∃ q : params,
      dispatched (update accepting_api "Q2$ABC" "9d5f" snaks_P1_P2_P1 None) [] = [q]
      ∧ q !! "snaks-order" = Some (json_text "['P1', 'P2', 'P1']")
      ∧ q !! "snaks-order" ≠ Some (json_text "['P1', 'P2']").
Proof.
  split; [|split].
  - eexists. vm_compute. reflexivity.
  - intros Hnd. apply List.NoDup_cons_iff in Hnd as [Hnotin _].
    apply Hnotin. right. left. reflexivity.
  - eexists. split; [vm_compute; reflexivity|].
    split; [vm_compute; reflexivity | vm_compute; discriminate].
Qed.

(** C1, amended: on snaks that pass the loop body, the grouper returns one
    group for each distinct property, in first-seen order, and an order list
    with one entry for each run of consecutive snaks of the same property, at
    the position of the run's first snak.  The order list therefore holds each
    property exactly once, at its first-seen position, when no property comes
    back after a different one.  On [{P1,a}], [{P2,b}], [{P1,c}], [update]
    serializes the group [{P1: [a, c], P2: [b]}] and the order list
    [P1, P2, P1]. *)
Theorem grouper_order_list :
  (∀ (snaks : list dict) (keys : list pykey),
      Forall2 accepted snaks keys →
      group_snaks snaks = Return (grouped (zip keys snaks), collapse_runs keys)
      ∧ no_adjacent_repeat (collapse_runs keys)
      ∧ (clustered keys →
         collapse_runs keys = first_occurrences keys
         ∧ List.NoDup (map class_of (collapse_runs keys))
         ∧ ∀ k, In k keys → ∃ k', In k' (collapse_runs keys) ∧ same_key k' k))
  ∧ (∀ (self : api) (claim_id reference_id : string) (w : world),
        let q : params :=
          {[ "action" := "wbsetreference"; "statement" := claim_id;
             "reference" := reference_id;
             "snaks" :=
               json_text
                 "{'P1': [{'snaktype': 'value', 'property': 'P1', 'datavalue': 'a'}, {'snaktype': 'value', 'property': 'P1', 'datavalue': 'c'}], 'P2': [{'snaktype': 'value', 'property': 'P2', 'datavalue': 'b'}]}";
             "snaks-order" := json_text "['P1', 'P2', 'P1']" ]} in
        update self claim_id reference_id snaks_P1_P2_P1 None w
          = (api_respond self w q, w ++ [q])).
Proof.
  split.
  - intros snaks keys Hacc. split; [apply group_snaks_accepted, Hacc|].
    split; [apply collapse_runs_no_adjacent_repeat|].
    intros Hcl. rewrite (collapse_runs_clustered _ Hcl).
    split; [reflexivity|]. split; [apply first_occurrences_NoDup|].
    apply first_occurrences_complete.
  - intros self claim_id reference_id w q. rewrite update_unfold.
    assert (group_snaks snaks_P1_P2_P1
            = Return (grouped (zip [KStr "P1"; KStr "P2"; KStr "P1"] snaks_P1_P2_P1),
                      [KStr "P1"; KStr "P2"; KStr "P1"])) as ->
      by (vm_compute; reflexivity).
    reflexivity.
Qed.

Lemma grouper_order_list_witness :
  group_snaks
    [example_snak "P1" "value" (PStr "a"); example_snak "P1" "value" (PStr "c");
     example_snak "P2" "somevalue" PNone]
  = Return
      ([(KStr "P1", [example_snak "P1" "value" (PStr "a");
                     example_snak "P1" "value" (PStr "c")]);
        (KStr "P2", [example_snak "P2" "somevalue" PNone])],
       [KStr "P1"; KStr "P2"])
  ∧ [KStr "P1"; KStr "P2"]
    = first_occurrences [KStr "P1"; KStr "P1"; KStr "P2"].
Proof.
  assert (Hacc : Forall2 accepted
                   [example_snak "P1" "value" (PStr "a");
                    example_snak "P1" "value" (PStr "c");
                    example_snak "P2" "somevalue" PNone]
                   [KStr "P1"; KStr "P1"; KStr "P2"]).
  { repeat constructor; do 3 eexists; repeat split; reflexivity. }
  assert (Hcl : clustered [KStr "P1"; KStr "P1"; KStr "P2"]) by clustered_by_cases.
  destruct (proj1 grouper_order_list _ _ Hacc) as (Hrun & _ & Hfirst).
  split; [exact Hrun | apply (Hfirst Hcl)].
Defined.

(** * Further properties of the three operations *)

(** ** Requests and the transport *)

(** X1: every call hands at most one request to the transport, after the
    requests already logged; [add] and [update] either raise before doing so,
    leaving the log alone, or return what the transport answered to that one
    request, its exceptions included; [remove] always dispatches. *)
Theorem one_request_per_call (self : api) (claim_id : string) (w : world) :
  (∀ (property_id : string) (value data_type : pyval) (snak_type : string)
     (index : option Z),
      add self claim_id property_id value data_type snak_type index w
        = (Raise InvalidSnakError, w)
      ∨ ∃ q : params,
          add self claim_id property_id value data_type snak_type index w
            = (api_respond self w q, w ++ [q]))
  ∧ (∀ (reference_id : string) (snaks : list dict) (index : option Z),
        (∃ e : exn,
            group_snaks snaks = Raise e
            ∧ update self claim_id reference_id snaks index w = (Raise e, w))
        ∨ ∃ q : params,
            update self claim_id reference_id snaks index w
              = (api_respond self w q, w ++ [q]))
  ∧ (∀ ids : reference_ids, ∃ q : params,
        remove self claim_id ids w = (api_respond self w q, w ++ [q])).
Proof.
  split; [|split].
  - intros property_id value data_type snak_type index. rewrite add_unfold.
    destruct (validate_snak_cases value (PStr snak_type)) as [-> | ->].
    + left. reflexivity.
    + right. eexists. reflexivity.
  - intros reference_id snaks index. rewrite update_unfold.
    destruct (group_snaks snaks) as [[g o]|e].
    + right. eexists. reflexivity.
    + left. exists e. split; reflexivity.
  - intros ids. eexists. apply remove_unfold.
Qed.

(** ** Which snaks [update] accepts *)

Lemma update_step_returns st snak st' :
  update_step st snak = Return st' → ∃ key, accepted snak key.
Proof.
  destruct st as [g o]. unfold update_step, dict_getitem, accepted.
  destruct (dict_get "datavalue" snak) as [dv|]; simpl; [|discriminate].
  destruct (dict_get "snaktype" snak) as [ty|]; simpl; [|discriminate].
  destruct (validate_snak dv ty) as [[]|e] eqn:Hval; simpl; [|discriminate].
  destruct (dict_get "property" snak) as [p|]; simpl; [|discriminate].
  destruct (as_key p) as [k|e] eqn:Hk; simpl; [|discriminate].
  intros _. exists k, dv, ty, p. repeat split; assumption || reflexivity.
Qed.

Lemma update_loop_returns snaks :
  ∀ st st', update_loop snaks st = Return st' → ∃ keys, Forall2 accepted snaks keys.
Proof.
  induction snaks as [|snak snaks IH]; intros st st' Hrun.
  - exists []. constructor.
  - cbn [update_loop] in Hrun.
    destruct (update_step st snak) as [st1|e] eqn:Hstep; [|discriminate].
    destruct (update_step_returns _ _ _ Hstep) as [k Hk].
    destruct (IH _ _ Hrun) as [keys Hkeys].
    exists (k :: keys). constructor; assumption.
Qed.

(** X2: [update] dispatches its request exactly when every snak passes the
    loop body (the three keys are present, validation succeeds, the property
    is hashable); otherwise it raises and dispatches nothing. *)
Theorem update_dispatches_iff_accepted (self : api) (claim_id reference_id : string)
    (snaks : list dict) (index : option Z) (w : world) :
  ((∃ keys, Forall2 accepted snaks keys)
   ↔ ∃ q : params,
       update self claim_id reference_id snaks index w = (api_respond self w q, w ++ [q]))
  ∧ ((¬ ∃ keys, Forall2 accepted snaks keys)
     ↔ ∃ e : exn, update self claim_id reference_id snaks index w = (Raise e, w)).
Proof.
  rewrite update_unfold.
  destruct (group_snaks snaks) as [[g o]|e] eqn:Hrun.
  - pose proof (update_loop_returns _ _ _ Hrun) as Hacc. split; split.
    + intros _. eexists. reflexivity.
    + intros _. exact Hacc.
    + intros Hnot. contradiction.
    + intros [e He]. exfalso. apply (f_equal snd) in He. simpl in He.
      apply (f_equal length) in He. rewrite length_app in He. simpl in He. lia.
  - assert (Hnot : ¬ ∃ keys, Forall2 accepted snaks keys).
    { intros [keys Hacc]. rewrite (group_snaks_accepted _ _ Hacc) in Hrun. discriminate. }
    split; split.
    + intros Hacc. contradiction.
    + intros [q Hq]. exfalso. apply (f_equal snd) in Hq. simpl in Hq.
      apply (f_equal length) in Hq. rewrite length_app in Hq. simpl in Hq. lia.
    + intros _. exists e. reflexivity.
    + intros _. exact Hnot.
Qed.

(** ** Malformed snaks *)

(** The loop stops at the first snak whose body raises. *)
Lemma update_stops_at_failure self claim_id reference_id pre snak post index w st e :
  update_loop pre ([], []) = Return st →
  update_step st snak = Raise e →
  update self claim_id reference_id (pre ++ snak :: post) index w = (Raise e, w).
Proof.
  intros Hpre Hstep. rewrite update_unfold. unfold group_snaks.
  rewrite update_loop_app, Hpre. cbn [mbind result_bind update_loop].
  rewrite Hstep. reflexivity.
Qed.

(** X3: when the loop of [update] reaches a snak that lacks a key or whose
    property cannot be hashed, [update] raises, dispatches nothing, and never
    looks at the snaks after it.  The keys are read in the order
    ["datavalue"], ["snaktype"], then, once validation has passed,
    ["property"]: the first one missing is the one named by the [KeyError];
    a [list] or [dict] as property raises [TypeError]. *)
Theorem update_malformed_snak (self : api) (claim_id reference_id : string)
    (pre post : list dict) (snak : dict) (index : option Z) (w : world)
    (st : snak_groups * list pykey) :
  update_loop pre ([], []) = Return st →
  (dict_get "datavalue" snak = None →
   update self claim_id reference_id (pre ++ snak :: post) index w
     = (Raise (KeyError "datavalue"), w))
  ∧ (is_Some (dict_get "datavalue" snak) →
     dict_get "snaktype" snak = None →
     update self claim_id reference_id (pre ++ snak :: post) index w
       = (Raise (KeyError "snaktype"), w))
  ∧ (∀ datavalue snaktype : pyval,
        dict_get "datavalue" snak = Some datavalue →
        dict_get "snaktype" snak = Some snaktype →
        validate_snak datavalue snaktype = Return () →
        (dict_get "property" snak = None →
         update self claim_id reference_id (pre ++ snak :: post) index w
           = (Raise (KeyError "property"), w))
        ∧ (∀ property : pyval,
              dict_get "property" snak = Some property →
              unhashable property →
              ∃ msg : string,
                update self claim_id reference_id (pre ++ snak :: post) index w
                  = (Raise (TypeError msg), w))).
Proof.
  intros Hpre. destruct st as [g o]. split; [|split].
  - intros Hdv. apply (update_stops_at_failure _ _ _ _ _ _ _ _ _ _ Hpre).
    unfold update_step, dict_getitem. rewrite Hdv. reflexivity.
  - intros [dv Hdv] Hty. apply (update_stops_at_failure _ _ _ _ _ _ _ _ _ _ Hpre).
    unfold update_step, dict_getitem. rewrite Hdv, Hty. reflexivity.
  - intros dv ty Hdv Hty Hval. split.
    + intros Hp. apply (update_stops_at_failure _ _ _ _ _ _ _ _ _ _ Hpre).
      unfold update_step, dict_getitem. rewrite Hdv, Hty. simpl.
      rewrite Hval. simpl. rewrite Hp. reflexivity.
    + intros p Hp Hun.
      destruct p as [| | | |l|d]; try contradiction; eexists;
        apply (update_stops_at_failure _ _ _ _ _ _ _ _ _ _ Hpre);
        unfold update_step, dict_getitem; rewrite Hdv, Hty; simpl;
        rewrite Hval; simpl; rewrite Hp; reflexivity.
Qed.

Lemma update_malformed_snak_witness :
  update accepting_api "Q2$ABC" "9d5f"
    [example_snak "P1" "value" (PStr "a");
     [("property", PStr "P2"); ("snaktype", PStr "value")];
     example_snak "P3" "novalue" (PStr "c")]
    None []
  = (Raise (KeyError "datavalue"), []).
Proof.
  apply (update_malformed_snak accepting_api "Q2$ABC" "9d5f"
           [example_snak "P1" "value" (PStr "a")]
           [example_snak "P3" "novalue" (PStr "c")]
           [("property", PStr "P2"); ("snaktype", PStr "value")] None []
           ([(KStr "P1", [example_snak "P1" "value" (PStr "a")])], [KStr "P1"])).
  - reflexivity.
  - reflexivity.
Defined.

(** ** What the groups hold *)

Lemma zip_accepted snaks keys :
  Forall2 accepted snaks keys →
  map fst (zip keys snaks) = keys ∧ map snd (zip keys snaks) = snaks.
Proof.
  induction 1 as [|snak key snaks keys _ _ [IHk IHs]]; [split; reflexivity|].
  simpl. rewrite IHk, IHs. split; reflexivity.
Qed.

(** A successful run of the grouper, in terms of the keys of the snaks. *)
Lemma group_snaks_returns snaks g o :
  group_snaks snaks = Return (g, o) →
  ∃ keys, Forall2 accepted snaks keys
          ∧ g = grouped (zip keys snaks) ∧ o = collapse_runs keys.
Proof.
  intros Hrun. destruct (update_loop_returns _ _ _ Hrun) as [keys Hacc].
  exists keys. split; [exact Hacc|].
  rewrite (group_snaks_accepted _ _ Hacc) in Hrun. injection Hrun as <- <-.
  split; reflexivity.
Qed.

Lemma dd_append_contents key snak (d : snak_groups) :
  concat (map snd (dd_append key snak d)) ≡ₚ concat (map snd d) ++ [snak].
Proof.
  induction d as [|[k xs] d IH]; simpl; [reflexivity|].
  destruct (pykey_eqb k key); simpl.
  - rewrite <- !app_assoc. apply Permutation_app_head, Permutation_app_comm.
  - rewrite IH, app_assoc. reflexivity.
Qed.

Lemma fold_file_snak_contents ks :
  ∀ g, concat (map snd (fold_left file_snak ks g)) ≡ₚ concat (map snd g) ++ map snd ks.
Proof.
  induction ks as [|[k s] ks IH]; intros g; simpl.
  - rewrite app_nil_r. reflexivity.
  - rewrite IH. unfold file_snak at 1. simpl. rewrite dd_append_contents.
    rewrite <- app_assoc. reflexivity.
Qed.

Lemma dd_append_nonempty key snak (d : snak_groups) :
  Forall (fun kv => kv.2 ≠ []) d → Forall (fun kv => kv.2 ≠ []) (dd_append key snak d).
Proof.
  induction 1 as [|[k xs] d Hxs Hd IH]; simpl.
  - repeat constructor. discriminate.
  - destruct (pykey_eqb k key); constructor; try assumption.
    simpl. intros Hnil. apply app_eq_nil in Hnil as [_ Hnil]. discriminate.
Qed.

Lemma fold_file_snak_nonempty ks :
  ∀ g, Forall (fun kv => kv.2 ≠ []) g →
       Forall (fun kv => kv.2 ≠ []) (fold_left file_snak ks g).
Proof.
  induction ks as [|[k s] ks IH]; intros g Hg; simpl; [exact Hg|].
  apply IH, dd_append_nonempty, Hg.
Qed.

Lemma grouped_keys ks : map fst (grouped ks) = first_occurrences (map fst ks).
Proof. unfold grouped. rewrite map_map. simpl. apply map_id. Qed.

(** X4: when the grouper succeeds, its groups hold the input snaks, each one
    once (together they are a rearrangement of the input), no group is empty,
    and no two groups have keys that [==] identifies. *)
Theorem groups_partition_snaks (snaks : list dict) (g : snak_groups) (o : list pykey) :
  group_snaks snaks = Return (g, o) →
  concat (map snd g) ≡ₚ snaks
  ∧ Forall (fun kv => kv.2 ≠ []) g
  ∧ List.NoDup (map (fun kv => class_of kv.1) g).
Proof.
  intros Hrun. destruct (group_snaks_returns _ _ _ Hrun) as (keys & Hacc & -> & _).
  destruct (zip_accepted _ _ Hacc) as [Hk Hs].
  rewrite <- fold_file_snak. split; [|split].
  - rewrite fold_file_snak_contents, Hs. reflexivity.
  - apply fold_file_snak_nonempty. constructor.
  - rewrite fold_file_snak, <- (map_map fst class_of), grouped_keys.
    apply first_occurrences_NoDup.
Qed.

Lemma groups_partition_snaks_witness :
  concat
    (map snd
       [(KStr "P1", [example_snak "P1" "value" (PStr "a");
                     example_snak "P1" "value" (PStr "c")]);
        (KStr "P2", [example_snak "P2" "value" (PStr "b")])])
  ≡ₚ snaks_P1_P2_P1.
Proof.
  apply (groups_partition_snaks snaks_P1_P2_P1 _ [KStr "P1"; KStr "P2"; KStr "P1"]).
  reflexivity.
Defined.

(** ** The order list against the groups *)

Lemma sublist_list_filter {A : Type} (p : A → bool) (l : list A) :
  sublist (List.filter p l) l.
Proof.
  induction l as [|a l IH]; simpl; [constructor|].
  destruct (p a); [apply sublist_skip | apply sublist_cons]; exact IH.
Qed.

Lemma drop_repeats_sublist keys : ∀ prev, sublist (drop_repeats prev keys) keys.
Proof.
  induction keys as [|k keys IH]; intros prev; simpl; [constructor|].
  destruct (pykey_eqb prev k); [apply sublist_cons | apply sublist_skip]; apply IH.
Qed.

Lemma collapse_runs_sublist keys : sublist (collapse_runs keys) keys.
Proof.
  destruct keys as [|k keys]; [constructor|].
  simpl. apply sublist_skip, drop_repeats_sublist.
Qed.

Lemma first_occurrences_drop_repeats keys :
  ∀ prev,
    sublist (List.filter (fun k => negb (pykey_eqb prev k)) (first_occurrences keys))
      (drop_repeats prev keys).
Proof.
  induction keys as [|k keys IH]; intros prev; simpl; [constructor|].
  destruct (pykey_eqb prev k) eqn:Hpk; simpl.
  - apply pykey_eqb_true in Hpk.
    rewrite (List.filter_ext (fun x => negb (pykey_eqb k x))
               (fun x => negb (pykey_eqb prev x)))
      by (intros x; rewrite (pykey_eqb_congr prev k x Hpk); reflexivity).
    rewrite List.forallb_filter_id by apply List.forallb_filter. apply IH.
  - apply sublist_skip. etransitivity; [apply sublist_list_filter | apply IH].
Qed.

Lemma first_occurrences_collapse_runs keys :
  sublist (first_occurrences keys) (collapse_runs keys).
Proof.
  destruct keys as [|k keys]; [constructor|].
  simpl. apply sublist_skip, first_occurrences_drop_repeats.
Qed.

Lemma drop_repeats_covers keys :
  ∀ prev x, In x keys → ∃ y, In y (prev :: drop_repeats prev keys) ∧ same_key y x.
Proof.
  induction keys as [|k keys IH]; intros prev x; [intros []|].
  cbn [drop_repeats]. destruct (pykey_eqb prev k) eqn:Hpk; intros [<-|Hin].
  - exists prev. split; [left; reflexivity | apply pykey_eqb_true, Hpk].
  - apply IH, Hin.
  - exists k. split; [right; left; reflexivity | reflexivity].
  - destruct (IH k x Hin) as (y & Hy & Hyx). exists y. split; [right; exact Hy | exact Hyx].
Qed.

(** X5: when the grouper succeeds, the keys of the groups, in order, are a
    subsequence of the order list, and the order list is a subsequence of the
    properties of the snaks; so there are at most as many groups as entries
    of the order list, and at most as many entries as snaks.  Every entry of
    the order list has its group. *)
Theorem order_list_between_groups_and_snaks (snaks : list dict) (g : snak_groups)
    (o : list pykey) :
  group_snaks snaks = Return (g, o) →
  sublist (map fst g) o
  ∧ (∃ keys, Forall2 accepted snaks keys ∧ sublist o keys)
  ∧ (length g ≤ length o ∧ length o ≤ length snaks)
  ∧ (∀ k, In k o → ∃ k', In k' (map fst g) ∧ same_key k' k).
Proof.
  intros Hrun. destruct (group_snaks_returns _ _ _ Hrun) as (keys & Hacc & -> & ->).
  destruct (zip_accepted _ _ Hacc) as [Hk _].
  rewrite grouped_keys, Hk.
  pose proof (first_occurrences_collapse_runs keys) as Hfc.
  pose proof (collapse_runs_sublist keys) as Hck.
  split; [exact Hfc|]. split; [exists keys; split; assumption|]. split.
  - split.
    + rewrite <- (length_map fst), grouped_keys, Hk. apply sublist_length, Hfc.
    + rewrite (Forall2_length _ _ _ Hacc). apply sublist_length, Hck.
  - intros k Hin. apply first_occurrences_complete.
    apply list_elem_of_In. apply list_elem_of_In in Hin.
    exact (elem_of_sublist _ _ _ Hin Hck).
Qed.

Lemma order_list_between_groups_and_snaks_witness :
  sublist [KStr "P1"; KStr "P2"] [KStr "P1"; KStr "P2"; KStr "P1"].
Proof.
  apply (order_list_between_groups_and_snaks snaks_P1_P2_P1
           [(KStr "P1", [example_snak "P1" "value" (PStr "a");
                         example_snak "P1" "value" (PStr "c")]);
            (KStr "P2", [example_snak "P2" "value" (PStr "b")])]
           [KStr "P1"; KStr "P2"; KStr "P1"]).
  reflexivity.
Defined.

(** ** When the order list repeats a property *)

Lemma same_key_trans a b c : same_key a b → same_key b c → same_key a c.
Proof. unfold same_key. congruence. Qed.

Lemma clustered_repeat p k l : clustered (p :: l) → same_key p k → clustered (p :: k :: l).
Proof.
  intros Hcl Hpk l1 a l2 b l3 E Hab.
  destruct l1 as [|x l1]; simpl in E; injection E as <- E.
  - destruct l2 as [|y l2]; simpl in E; [constructor|]. injection E as <- E.
    constructor; [exact Hpk|]. apply (Hcl [] p l2 b l3); [rewrite E; reflexivity | exact Hab].
  - destruct l1 as [|y l1]; simpl in E; injection E as <- E.
    + assert (Hpb : same_key p b) by (eapply same_key_trans; eassumption).
      pose proof (Hcl [] p l2 b l3 ltac:(rewrite E; reflexivity) Hpb) as Hl2.
      eapply Forall_impl; [exact Hl2|]. intros z Hz. unfold same_key in *. congruence.
    + apply (Hcl (p :: l1) a l2 b l3); [rewrite E; reflexivity | exact Hab].
Qed.

Lemma clustered_fresh p l :
  clustered l → (∀ x, In x l → ¬ same_key p x) → clustered (p :: l).
Proof.
  intros Hcl Hfresh l1 a l2 b l3 E Hab.
  destruct l1 as [|x l1]; simpl in E; injection E as <- E.
  - exfalso. apply (Hfresh b); [|exact Hab].
    rewrite E. apply in_or_app. right. left. reflexivity.
  - apply (Hcl l1 a l2 b l3 E Hab).
Qed.

Lemma drop_repeats_NoDup_clustered keys :
  ∀ prev, List.NoDup (map class_of (prev :: drop_repeats prev keys)) →
          clustered (prev :: keys).
Proof.
  induction keys as [|k keys IH]; intros prev Hnd.
  - intros l1 a l2 b l3 E _. exfalso.
    destruct l1 as [|x l1]; simpl in E; injection E as _ E;
      [destruct l2 | destruct l1]; discriminate.
  - cbn [drop_repeats] in Hnd. destruct (pykey_eqb prev k) eqn:Hpk.
    + apply clustered_repeat; [apply IH, Hnd | apply pykey_eqb_true, Hpk].
    + simpl in Hnd. apply List.NoDup_cons_iff in Hnd as [Hnotin Hnd].
      apply clustered_fresh; [apply IH, Hnd|].
      intros x Hx Hpx. apply Hnotin.
      assert (∃ y, In y (k :: drop_repeats k keys) ∧ same_key y x) as (y & Hy & Hyx).
      { destruct Hx as [<-|Hx]; [exists k; split; [left|]; reflexivity|].
        apply drop_repeats_covers, Hx. }
      replace (class_of prev) with (class_of y)
        by (unfold same_key in *; congruence).
      apply (in_map class_of) in Hy. exact Hy.
Qed.

(** X6: on snaks that pass the loop body, the order list is free of repeated
    properties exactly when no property comes back after a different one; and
    exactly then it lists the keys of the groups. *)
Theorem order_list_duplicate_free_iff_clustered (snaks : list dict) (keys : list pykey) :
  Forall2 accepted snaks keys →
  ∃ (g : snak_groups) (o : list pykey),
    group_snaks snaks = Return (g, o)
    ∧ (List.NoDup (map class_of o) ↔ clustered keys)
    ∧ (o = map fst g ↔ clustered keys).
Proof.
  intros Hacc. exists (grouped (zip keys snaks)), (collapse_runs keys).
  split; [apply group_snaks_accepted, Hacc|].
  destruct (zip_accepted _ _ Hacc) as [Hk _]. rewrite grouped_keys, Hk.
  assert (Hback : List.NoDup (map class_of (collapse_runs keys)) → clustered keys).
  { destruct keys as [|k keys']; [|apply drop_repeats_NoDup_clustered].
    intros _ l1 a l2 b l3 E _. destruct l1; discriminate. }
  split; split.
  - exact Hback.
  - intros Hcl. rewrite (collapse_runs_clustered _ Hcl). apply first_occurrences_NoDup.
  - intros Heq. apply Hback. rewrite Heq. apply first_occurrences_NoDup.
  - apply collapse_runs_clustered.
Qed.

Lemma order_list_duplicate_free_iff_clustered_witness :
  ∃ (g : snak_groups) (o : list pykey),
    group_snaks snaks_P1_P2_P1 = Return (g, o)
    ∧ (List.NoDup (map class_of o) ↔ clustered [KStr "P1"; KStr "P2"; KStr "P1"]).
Proof.
  destruct (order_list_duplicate_free_iff_clustered snaks_P1_P2_P1
              [KStr "P1"; KStr "P2"; KStr "P1"]) as (g & o & Hrun & Hiff & _).
  - repeat constructor; do 3 eexists; repeat split; reflexivity.
  - exists g, o. split; assumption.
Defined.

(** ** Reading a descriptor *)

Lemma add_request_snaks claim_id property_id value data_type snak_type index :
  add_request claim_id property_id value data_type snak_type index !! "snaks"
  = Some (json_dumps
            (PDict [(property_id,
                     PList [PDict (add_snak property_id value data_type snak_type)])])).
Proof.
  unfold add_request. rewrite with_index_other by discriminate.
  rewrite lookup_insert_ne by discriminate.
  rewrite lookup_insert_ne by discriminate.
  apply lookup_singleton_eq.
Qed.

Lemma update_request_snaks claim_id reference_id g o index :
  update_request claim_id reference_id g o index !! "snaks"
  = Some (json_dumps (groups_value g)).
Proof.
  unfold update_request. rewrite with_index_other by discriminate.
  do 3 (rewrite lookup_insert_ne by discriminate). apply lookup_insert_eq.
Qed.

Lemma update_request_snaks_order claim_id reference_id g o index :
  update_request claim_id reference_id g o index !! "snaks-order"
  = Some (json_dumps (PList (map key_value o))).
Proof.
  unfold update_request. rewrite with_index_other by discriminate.
  do 4 (rewrite lookup_insert_ne by discriminate). apply lookup_singleton_eq.
Qed.

(** ** [add] and [update] on one snak *)

Lemma add_snak_accepted property_id value data_type snak_type :
  validate_snak value (PStr snak_type) = Return () →
  accepted (add_snak property_id value data_type snak_type) (KStr property_id).
Proof.
  intros Hval. exists value, (PStr snak_type), (PStr property_id).
  unfold add_snak. destruct (py_bool data_type); repeat split; assumption || reflexivity.
Qed.

Lemma update_request_one_snak claim_id property_id reference_id value data_type
    snak_type index :
  update_request claim_id reference_id
    [(KStr property_id, [add_snak property_id value data_type snak_type])]
    [KStr property_id] index
  = <["reference" := reference_id]>
      (<["snaks-order" := json_dumps (PList [PStr property_id])]>
         (add_request claim_id property_id value data_type snak_type index)).
Proof. unfold update_request, add_request. destruct index; map_lookup_cases. Qed.

(** X7: [update] called with the one snak object that [add] builds dispatches
    the descriptor of [add] with two more parameters: ["reference"], and
    ["snaks-order"] holding the list of that one property.  The ["snaks"]
    payload is the same. *)
Theorem update_one_snak_extends_add (self : api)
    (claim_id property_id reference_id : string) (value data_type : pyval)
    (snak_type : string) (index : option Z) (w : world) :
  validate_snak value (PStr snak_type) = Return () →
  ∃ qa qu : params,
    add self claim_id property_id value data_type snak_type index w
      = (api_respond self w qa, w ++ [qa])
    ∧ update self claim_id reference_id
        [add_snak property_id value data_type snak_type] index w
      = (api_respond self w qu, w ++ [qu])
    ∧ qu = <["reference" := reference_id]>
             (<["snaks-order" := json_dumps (PList [PStr property_id])]> qa)
    ∧ qu !! "snaks" = qa !! "snaks".
Proof.
  intros Hval. eexists _, _.
  split; [rewrite add_unfold, Hval; reflexivity|].
  split.
  { rewrite update_unfold.
    assert (Hacc : Forall2 accepted [add_snak property_id value data_type snak_type]
                     [KStr property_id])
      by (repeat constructor; apply add_snak_accepted, Hval).
    rewrite (group_snaks_accepted _ _ Hacc).
    unfold grouped, members. simpl. rewrite pykey_eqb_refl. reflexivity. }
  split; [apply update_request_one_snak|].
  rewrite update_request_snaks, add_request_snaks. reflexivity.
Qed.

Lemma update_one_snak_extends_add_witness :
  ∃ qa qu : params,
    dispatched (add accepting_api "Q2$ABC" "P854" (PStr "x") (PStr "url") "value" None) []
      = [qa]
    ∧ dispatched
        (update accepting_api "Q2$ABC" "9d5f"
           [add_snak "P854" (PStr "x") (PStr "url") "value"] None) []
      = [qu]
    ∧ qu !! "snaks" = qa !! "snaks".
Proof.
  destruct (update_one_snak_extends_add accepting_api "Q2$ABC" "P854" "9d5f"
              (PStr "x") (PStr "url") "value" None [] eq_refl)
    as (qa & qu & Ha & Hu & _ & Hs).
  exists qa, qu. unfold dispatched. rewrite Ha, Hu. repeat split. exact Hs.
Defined.

(** ** The parameters of each descriptor *)

Lemma dispatched_one {A : Type} (r : result A) (w : world) (q q' : params) :
  (r, w ++ [q]).2 = w ++ [q'] → q = q'.
Proof. simpl. intros H. apply app_inv_head in H. congruence. Qed.

Lemma dispatched_none {A : Type} (r : result A) (w : world) (q : params) :
  (r, w).2 = w ++ [q] → False.
Proof.
  simpl. intros H. apply (f_equal length) in H.
  rewrite length_app in H. simpl in H. lia.
Qed.

Lemma add_request_dom claim_id property_id value data_type snak_type index :
  dom (add_request claim_id property_id value data_type snak_type index)
  = {[ "action"; "statement"; "snaks" ]} ∪ index_keys index.
Proof.
  unfold add_request, with_index, index_keys.
  destruct index; rewrite ?dom_insert_L, dom_singleton_L; set_solver.
Qed.

Lemma update_request_dom claim_id reference_id g o index :
  dom (update_request claim_id reference_id g o index)
  = {[ "action"; "statement"; "reference"; "snaks"; "snaks-order" ]}
    ∪ index_keys index.
Proof.
  unfold update_request, with_index, index_keys.
  destruct index; rewrite ?dom_insert_L, dom_singleton_L; set_solver.
Qed.

(** X8: a dispatched descriptor has these parameters and no others:
    [action], [statement] and [snaks] for [add]; these with [reference] and
    [snaks-order] for [update]; [action], [statement] and [references] for
    [remove]; and [index] for [add] and [update] when an index is given. *)
Theorem descriptor_parameters (self : api) (claim_id : string) (w : world) (q : params) :
  (∀ (property_id : string) (value data_type : pyval) (snak_type : string)
     (index : option Z),
      dispatched (add self claim_id property_id value data_type snak_type index) w
        = w ++ [q] →
      dom q = {[ "action"; "statement"; "snaks" ]} ∪ index_keys index)
  ∧ (∀ (reference_id : string) (snaks : list dict) (index : option Z),
        dispatched (update self claim_id reference_id snaks index) w = w ++ [q] →
        dom q = {[ "action"; "statement"; "reference"; "snaks"; "snaks-order" ]}
                ∪ index_keys index)
  ∧ (∀ ids : reference_ids,
        dispatched (remove self claim_id ids) w = w ++ [q] →
        dom q = {[ "action"; "statement"; "references" ]}).
Proof.
  unfold dispatched. split; [|split].
  - intros property_id value data_type snak_type index. rewrite add_unfold.
    destruct (validate_snak value (PStr snak_type)) as [[]|e].
    + intros <-%dispatched_one. apply add_request_dom.
    + intros []%dispatched_none.
  - intros reference_id snaks index. rewrite update_unfold.
    destruct (group_snaks snaks) as [[g o]|e].
    + intros <-%dispatched_one. apply update_request_dom.
    + intros []%dispatched_none.
  - intros ids. rewrite remove_unfold.
    intros <-%dispatched_one. rewrite !dom_insert_L, dom_singleton_L. set_solver.
Qed.

Lemma descriptor_parameters_witness :
  dom (add_request "Q2$ABC" "P854" (PStr "x") PNone "value" (Some 3%Z))
  = {[ "action"; "statement"; "snaks" ]} ∪ index_keys (Some 3%Z).
Proof.
  destruct (descriptor_parameters accepting_api "Q2$ABC" []
              (add_request "Q2$ABC" "P854" (PStr "x") PNone "value" (Some 3%Z)))
    as (Hadd & _).
  apply (Hadd "P854" (PStr "x") PNone "value" (Some 3%Z)). reflexivity.
Defined.

(** ** Reading the [references] field back *)

Lemma split_pipe_piece (x rest : string) :
  has_pipe x = false → split_pipe (x +:+ "|" +:+ rest) = x :: split_pipe rest.
Proof.
  induction x as [|c x IH]; simpl; [reflexivity|].
  destruct (Ascii.eqb c "|"%char); simpl; [discriminate|].
  intros Hx. rewrite (IH Hx). reflexivity.
Qed.

Lemma split_pipe_last (x : string) : has_pipe x = false → split_pipe x = [x].
Proof.
  induction x as [|c x IH]; simpl; [reflexivity|].
  destruct (Ascii.eqb c "|"%char); simpl; [discriminate|].
  intros Hx. rewrite (IH Hx). reflexivity.
Qed.

Lemma split_pipe_concat (l : list string) :
  l ≠ [] → Forall (fun s => has_pipe s = false) l →
  split_pipe (String.concat "|" l) = l.
Proof.
  induction l as [|x l IH]; [congruence|].
  intros _ Hl. apply Forall_cons in Hl as [Hx Hl].
  destruct l as [|y l]; [apply split_pipe_last, Hx|].
  change (String.concat "|" (x :: y :: l))
    with (x +:+ "|" +:+ String.concat "|" (y :: l)).
  rewrite (split_pipe_piece _ _ Hx), IH; [reflexivity | discriminate | exact Hl].
Qed.

(** X9: for a non-empty sequence of identifiers none of which holds ["|"],
    splitting the [references] field of the descriptor of [remove] at each
    ["|"] gives the identifiers back; so two such sequences with the same
    [references] field are equal. *)
Theorem remove_references_read_back (self : api) (claim_id : string)
    (l : list string) (w : world) (q : params) :
  l ≠ [] →
  Forall (fun s => has_pipe s = false) l →
  dispatched (remove self claim_id (ManyIds l)) w = w ++ [q] →
  (∃ r : string, q !! "references" = Some r ∧ split_pipe r = l)
  ∧ ∀ (l' : list string) (q' : params),
      l' ≠ [] →
      Forall (fun s => has_pipe s = false) l' →
      dispatched (remove self claim_id (ManyIds l')) w = w ++ [q'] →
      q' !! "references" = q !! "references" →
      l' = l.
Proof.
  unfold dispatched. rewrite remove_unfold. intros Hne Hl <-%dispatched_one.
  rewrite remove_references_field. split.
  - eexists. split; [reflexivity | apply split_pipe_concat; assumption].
  - intros l' q' Hne' Hl'. rewrite remove_unfold. intros <-%dispatched_one.
    rewrite remove_references_field. intros [= Heq].
    rewrite <- (split_pipe_concat l' Hne' Hl'), Heq.
    apply split_pipe_concat; assumption.
Qed.

Lemma remove_references_read_back_witness :
  ∃ r : string,
    ({[ "action" := "wbremovereferences"; "statement" := "Q2$ABC";
        "references" := "H1|H2" ]} : params) !! "references" = Some r
    ∧ split_pipe r = ["H1"; "H2"].
Proof.
  apply (remove_references_read_back accepting_api "Q2$ABC" ["H1"; "H2"] []).
  - discriminate.
  - repeat constructor.
  - reflexivity.
Defined.

(** ** The payloads are plain ASCII *)

Lemma all_printable_app (a b : string) :
  all_printable (a +:+ b) = all_printable a && all_printable b.
Proof.
  induction a as [|c a IH]; simpl; [reflexivity|].
  rewrite IH, andb_assoc. reflexivity.
Qed.

Lemma all_printable_concat (sep : string) (l : list string) :
  all_printable sep = true →
  Forall (fun s => all_printable s = true) l →
  all_printable (String.concat sep l) = true.
Proof.
  intros Hsep. induction 1 as [|x l Hx Hl IH]; [reflexivity|].
  destruct l as [|y l]; [exact Hx|].
  change (String.concat sep (x :: y :: l))
    with (x +:+ sep +:+ String.concat sep (y :: l)).
  rewrite !all_printable_app, Hx, Hsep, IH. reflexivity.
Qed.

Lemma json_escape_char_printable (c : ascii) :
  all_printable (json_escape_char c) = true.
Proof. destruct c as [[] [] [] [] [] [] [] []]; vm_compute; reflexivity. Qed.

Lemma json_string_printable (s : string) : all_printable (json_string s) = true.
Proof.
  unfold json_string. cbn [all_printable]. rewrite all_printable_app.
  assert (all_printable (json_escape s) = true) as ->.
  { induction s as [|c s IH]; [reflexivity|].
    cbn [json_escape]. rewrite all_printable_app, json_escape_char_printable, IH.
    reflexivity. }
  reflexivity.
Qed.

Lemma py_str_int_printable (z : Z) : all_printable (py_str_int z) = true.
Proof.
  assert (Hdigits : ∀ u, all_printable (NilEmpty.string_of_uint u) = true)
    by (induction u; simpl; assumption || reflexivity).
  assert (Huint : ∀ u, all_printable (NilZero.string_of_uint u) = true)
    by (intros [| | | | | | | | | |]; try reflexivity; apply Hdigits).
  unfold py_str_int, NilZero.string_of_int.
  destruct (Z.to_int z); [|cbn [all_printable]; rewrite Huint; reflexivity].
  apply Huint.
Qed.

Lemma json_dumps_printable : ∀ v : pyval, all_printable (json_dumps v) = true.
Proof.
  fix IH 1. intros [|b|z|s|l|d]; cbn [json_dumps].
  - reflexivity.
  - destruct b; reflexivity.
  - apply py_str_int_printable.
  - apply json_string_printable.
  - rewrite !all_printable_app, all_printable_concat; [reflexivity..|].
    induction l as [|x l IHl]; constructor; [apply IH | exact IHl].
  - rewrite !all_printable_app, all_printable_concat; [reflexivity..|].
    induction d as [|[k x] d IHd]; constructor; [|exact IHd].
    rewrite !all_printable_app, json_string_printable, IH. reflexivity.
Qed.

(** X10: whatever the identifiers and values are, the ["snaks"] and
    ["snaks-order"] parameters that [add] and [update] dispatch hold only the
    characters from the space to the tilde: [json.dumps] escapes all others. *)
Theorem payloads_are_printable_ascii (self : api) (claim_id : string) (w : world)
    (q : params) (r : string) :
  (∀ (property_id : string) (value data_type : pyval) (snak_type : string)
     (index : option Z),
      dispatched (add self claim_id property_id value data_type snak_type index) w
        = w ++ [q] →
      q !! "snaks" = Some r → all_printable r = true)
  ∧ (∀ (reference_id : string) (snaks : list dict) (index : option Z),
        dispatched (update self claim_id reference_id snaks index) w = w ++ [q] →
        q !! "snaks" = Some r ∨ q !! "snaks-order" = Some r →
        all_printable r = true).
Proof.
  unfold dispatched. split.
  - intros property_id value data_type snak_type index. rewrite add_unfold.
    destruct (validate_snak value (PStr snak_type)) as [[]|e].
    + intros <-%dispatched_one. rewrite add_request_snaks.
      intros Hr. apply (inj Some) in Hr. subst r. apply json_dumps_printable.
    + intros []%dispatched_none.
  - intros reference_id snaks index. rewrite update_unfold.
    destruct (group_snaks snaks) as [[g o]|e].
    + intros <-%dispatched_one.
      rewrite update_request_snaks, update_request_snaks_order.
      intros [Hr|Hr]; apply (inj Some) in Hr; subst r; apply json_dumps_printable.
    + intros []%dispatched_none.
Qed.

Lemma payloads_are_printable_ascii_witness :
  all_printable
    (json_dumps
       (PDict [("P854",
                PList [PDict (add_snak "P854"
                                (PStr (String (ascii_of_nat 233) "t" +:+ String (ascii_of_nat 10) "x"))
                                PNone "value")])]))
  = true.
Proof.
  destruct (payloads_are_printable_ascii accepting_api "Q2$ABC" []
              (add_request "Q2$ABC" "P854"
                 (PStr (String (ascii_of_nat 233) "t" +:+ String (ascii_of_nat 10) "x"))
                 PNone "value" None)
              (json_dumps
                 (PDict [("P854",
                          PList [PDict (add_snak "P854"
                                          (PStr (String (ascii_of_nat 233) "t"
                                                 +:+ String (ascii_of_nat 10) "x"))
                                          PNone "value")])])))
    as [Hadd _].
  apply (Hadd "P854"
           (PStr (String (ascii_of_nat 233) "t" +:+ String (ascii_of_nat 10) "x"))
           PNone "value" None).
  - reflexivity.
  - vm_compute. reflexivity.
Defined.

(** ** The keys of the serialized group *)

Lemma groups_value_keys (g : snak_groups) :
  ∃ items : dict,
    groups_value g = PDict items ∧ map fst items = map json_key (map fst g).
Proof.
  eexists. split; [reflexivity|].
  rewrite !map_map. apply map_ext. intros [k xs]. reflexivity.
Qed.

(** X11: when every property is a [str], the JSON object that [update]
    serializes as ["snaks"] has pairwise distinct keys, and its keys are the
    properties of the snaks. *)
Theorem string_properties_give_distinct_json_keys (snaks : list dict)
    (props : list string) :
  Forall2 accepted snaks (map KStr props) →
  ∃ (g : snak_groups) (o : list pykey) (items : dict),
    group_snaks snaks = Return (g, o)
    ∧ groups_value g = PDict items
    ∧ List.NoDup (map fst items)
    ∧ ∀ p : string, In p (map fst items) ↔ In p props.
Proof.
  intros Hacc. destruct (zip_accepted _ _ Hacc) as [Hk _].
  destruct (groups_value_keys (grouped (zip (map KStr props) snaks)))
    as (items & Hitems & Hkeys).
  rewrite grouped_keys, Hk in Hkeys.
  exists (grouped (zip (map KStr props) snaks)), (collapse_runs (map KStr props)), items.
  split; [apply group_snaks_accepted, Hacc|]. split; [exact Hitems|].
  assert (Hstr : ∀ k, In k (first_occurrences (map KStr props)) →
                      class_of k = CStr (json_key k) ∧ In (json_key k) props).
  { intros k Hin. apply first_occurrences_incl, in_map_iff in Hin as (p & <- & Hp).
    split; [reflexivity | exact Hp]. }
  rewrite Hkeys. split.
  - apply (NoDup_map_inv CStr). rewrite map_map.
    rewrite <- (map_ext_in class_of _ _ (fun k Hin => proj1 (Hstr k Hin))).
    apply first_occurrences_NoDup.
  - intros p. split.
    + intros Hin. apply in_map_iff in Hin as (k & <- & Hk'). apply Hstr, Hk'.
    + intros Hp.
      destruct (first_occurrences_complete (map KStr props) (KStr p)
                  (in_map KStr _ _ Hp)) as (k & Hin & Hsame).
      apply in_map_iff. exists k. split; [|exact Hin].
      destruct (Hstr k Hin) as [Hclass _].
      unfold same_key in Hsame. rewrite Hclass in Hsame. simpl in Hsame. congruence.
Qed.

Lemma string_properties_give_distinct_json_keys_witness :
  ∃ (g : snak_groups) (o : list pykey) (items : dict),
    group_snaks snaks_P1_P2_P1 = Return (g, o)
    ∧ groups_value g = PDict items
    ∧ List.NoDup (map fst items).
Proof.
  destruct (string_properties_give_distinct_json_keys snaks_P1_P2_P1 ["P1"; "P2"; "P1"])
    as (g & o & items & Hrun & Hval & Hnd & _).
  - repeat constructor; do 3 eexists; repeat split; reflexivity.
  - exists g, o, items. repeat split; assumption.
Defined.

(** ** Grouping what the grouper returned *)

Lemma dd_append_group_ok key snak (g : snak_groups) :
  accepted snak key → Forall group_ok g → Forall group_ok (dd_append key snak g).
Proof.
  intros Hacc. induction 1 as [|[k xs] g Hk Hg IH]; simpl.
  - repeat constructor. exists snak, []. repeat split; [exact Hacc | constructor].
  - destruct (pykey_eqb k key) eqn:Heq; constructor; try assumption.
    destruct Hk as (s & xs0 & Hxs & Hs & Hrest). simpl in *. subst xs.
    exists s, (xs0 ++ [snak]). repeat split; [exact Hs|].
    apply Forall_app. split; [exact Hrest|].
    repeat constructor. exists key. split; [exact Hacc | apply pykey_eqb_true, Heq].
Qed.

Lemma fold_file_snak_group_ok snaks keys :
  Forall2 accepted snaks keys →
  ∀ g, Forall group_ok g → Forall group_ok (fold_left file_snak (zip keys snaks) g).
Proof.
  induction 1 as [|snak key snaks keys Hacc _ IH]; intros g Hg; simpl; [exact Hg|].
  apply IH. unfold file_snak. simpl. apply dd_append_group_ok; assumption.
Qed.

Lemma dd_append_app_miss key snak (g0 g1 : snak_groups) :
  Forall (fun kv => pykey_eqb kv.1 key = false) g0 →
  dd_append key snak (g0 ++ g1) = g0 ++ dd_append key snak g1.
Proof.
  induction 1 as [|[k xs] g0 Hk _ IH]; simpl; [reflexivity|].
  simpl in Hk. rewrite Hk, IH. reflexivity.
Qed.

(** The snaks of a group, met after its first snak, join that group. *)
Lemma update_loop_group_tail k (g0 : snak_groups) (o0 : list pykey) xs :
  Forall (fun kv => ¬ same_key kv.1 k) g0 →
  Forall (fun s' => ∃ k', accepted s' k' ∧ same_key k k') xs →
  ∀ ys, update_loop xs (g0 ++ [(k, ys)], o0 ++ [k])
        = Return (g0 ++ [(k, ys ++ xs)], o0 ++ [k]).
Proof.
  intros Hg0. induction 1 as [|s xs (k' & Hacc & Hsame) _ IH]; intros ys.
  - rewrite app_nil_r. reflexivity.
  - cbn [update_loop]. rewrite (update_step_accepted _ _ _ _ Hacc).
    cbn [mbind result_bind].
    rewrite dd_append_app_miss.
    2:{ eapply Forall_impl; [exact Hg0|]. intros kv Hkv. simpl in Hkv.
        apply pykey_eqb_false. intros H. apply Hkv.
        unfold same_key in *. congruence. }
    unfold push_order. rewrite last_snoc. simpl.
    rewrite (proj2 (pykey_eqb_true k k') Hsame). simpl.
    rewrite IH, <- app_assoc. reflexivity.
Qed.

Lemma update_loop_groups (blocks : snak_groups) :
  ∀ g0 : snak_groups,
    Forall group_ok blocks →
    List.NoDup (map (fun kv => class_of kv.1) (g0 ++ blocks)) →
    update_loop (concat (map snd blocks)) (g0, map fst g0)
    = Return (g0 ++ blocks, map fst (g0 ++ blocks)).
Proof.
  induction blocks as [|[k xs] blocks IH]; intros g0 Hok Hnd.
  - rewrite app_nil_r. reflexivity.
  - apply Forall_cons in Hok as [(s & xs0 & Hxs & Hs & Hrest) Hok].
    simpl in Hxs, Hs, Hrest. subst xs.
    assert (Hfresh : Forall (fun kv : pykey * list dict => ¬ same_key kv.1 k) g0).
    { rewrite map_app in Hnd. simpl in Hnd. apply List.NoDup_remove_2 in Hnd.
      apply Forall_forall. intros kv Hkv Hsame. apply Hnd.
      apply in_or_app. left. rewrite <- Hsame.
      apply (in_map (fun kv => class_of kv.1)), list_elem_of_In, Hkv. }
    cbn [map concat snd]. rewrite update_loop_app. cbn [update_loop app].
    rewrite (update_step_accepted _ _ _ _ Hs). cbn [mbind result_bind].
    rewrite <- (app_nil_r g0) at 1. rewrite dd_append_app_miss.
    2:{ eapply Forall_impl; [exact Hfresh|]. intros kv Hkv.
        apply pykey_eqb_false, Hkv. }
    assert (push_order k (map fst g0) = map fst g0 ++ [k]) as ->.
    { unfold push_order. destruct (last (map fst g0)) as [q|] eqn:Hlast; [|reflexivity].
      apply last_Some in Hlast as [l' Hl'].
      assert (Hq : In q (map fst g0))
        by (rewrite Hl'; apply in_or_app; right; left; reflexivity).
      apply in_map_iff in Hq as (kv & <- & Hkv).
      rewrite Forall_forall in Hfresh.
      apply list_elem_of_In, Hfresh, pykey_eqb_false in Hkv.
      rewrite Hkv. reflexivity. }
    simpl dd_append.
    rewrite (update_loop_group_tail k g0 (map fst g0) xs0 Hfresh Hrest [s]).
    cbn [mbind result_bind app].
    replace (map fst g0 ++ [k]) with (map fst (g0 ++ [(k, s :: xs0)]))
      by (rewrite map_app; reflexivity).
    rewrite IH; [|exact Hok|rewrite <- app_assoc; exact Hnd].
    rewrite <- app_assoc. reflexivity.
Qed.

(** X12: grouping is stable: the snaks as the grouper returned them, group
    after group, are grouped into the same groups again, and their order list
    is the list of the keys of the groups, without repeats. *)
Theorem regrouping_is_stable (snaks : list dict) (g : snak_groups) (o : list pykey) :
  group_snaks snaks = Return (g, o) →
  group_snaks (concat (map snd g)) = Return (g, map fst g).
Proof.
  intros Hrun. destruct (group_snaks_returns _ _ _ Hrun) as (keys & Hacc & -> & _).
  apply (update_loop_groups (grouped (zip keys snaks)) []).
  - rewrite <- fold_file_snak. apply (fold_file_snak_group_ok _ _ Hacc). constructor.
  - simpl. rewrite <- (map_map fst class_of), grouped_keys.
    apply first_occurrences_NoDup.
Qed.

Lemma regrouping_is_stable_witness :
  group_snaks
    [example_snak "P1" "value" (PStr "a"); example_snak "P1" "value" (PStr "c");
     example_snak "P2" "value" (PStr "b")]
  = Return
      ([(KStr "P1", [example_snak "P1" "value" (PStr "a");
                     example_snak "P1" "value" (PStr "c")]);
        (KStr "P2", [example_snak "P2" "value" (PStr "b")])],
       [KStr "P1"; KStr "P2"]).
Proof.
  exact (regrouping_is_stable snaks_P1_P2_P1
           [(KStr "P1", [example_snak "P1" "value" (PStr "a");
                         example_snak "P1" "value" (PStr "c")]);
            (KStr "P2", [example_snak "P2" "value" (PStr "b")])]
           [KStr "P1"; KStr "P2"; KStr "P1"] eq_refl).
Defined.

(** ** The tables of language codes, entity types and attributes *)

Lemma code_char_not_pipe (c : ascii) : code_char c = true → Ascii.eqb c "|"%char = false.
Proof. destruct c as [[] [] [] [] [] [] [] []]; vm_compute; congruence. Qed.

Lemma is_code_has_no_pipe (s : string) : is_code s = true → has_pipe s = false.
Proof.
  intros Hs.
  assert (Hall : forallb code_char (list_ascii_of_string s) = true)
    by (destruct s; [discriminate | exact Hs]).
  clear Hs. induction s as [|c s IH]; [reflexivity|].
  simpl in Hall. apply andb_true_iff in Hall as [Hc Hall].
  simpl. rewrite (code_char_not_pipe c Hc), (IH Hall). reflexivity.
Qed.

Lemma no_repeat_NoDup (l : list string) : no_repeat l = true → List.NoDup l.
Proof.
  induction l as [|s l IH]; simpl; [constructor|].
  intros [Hs Hl]%andb_true_iff. constructor; [|apply IH, Hl].
  intros Hin. apply negb_true_iff in Hs.
  assert (existsb (String.eqb s) l = true); [|congruence].
  apply existsb_exists. exists s. split; [exact Hin | apply String.eqb_refl].
Qed.

(** X13: every entry of [possible_attributes], [possible_entities] and
    [possible_languages] is a non-empty string of lowercase letters, digits
    and hyphens; no table lists an entry twice, and [possible_languages] is in
    strictly increasing order.  Hence a non-empty selection of entries joined
    with ["|"] is read back, entry by entry, by splitting at ["|"]. *)
Theorem tables_hold_codes :
  Forall (fun s => is_code s = true)
    (possible_attributes ++ possible_entities ++ possible_languages)
  ∧ List.NoDup possible_attributes
  ∧ List.NoDup possible_entities
  ∧ List.NoDup possible_languages
  ∧ strictly_increasing possible_languages = true
  ∧ ∀ l : list string,
      l ≠ [] →
      Forall (fun s => In s (possible_attributes ++ possible_entities
                             ++ possible_languages)) l →
      split_pipe (String.concat "|" l) = l.
Proof.
  assert (Hb : forallb is_code
                 (possible_attributes ++ possible_entities ++ possible_languages)
               = true) by (vm_compute; reflexivity).
  assert (Hcodes : Forall (fun s => is_code s = true)
                     (possible_attributes ++ possible_entities ++ possible_languages)).
  { apply Forall_forall. intros s Hs. apply list_elem_of_In in Hs.
    exact (proj1 (forallb_forall _ _) Hb s Hs). }
  split; [exact Hcodes|].
  split; [apply no_repeat_NoDup; vm_compute; reflexivity|].
  split; [apply no_repeat_NoDup; vm_compute; reflexivity|].
  split; [apply no_repeat_NoDup; vm_compute; reflexivity|].
  split; [vm_compute; reflexivity|].
  intros l Hne Hl. apply split_pipe_concat; [exact Hne|].
  eapply Forall_impl; [exact Hl|]. intros s Hs. apply is_code_has_no_pipe.
  rewrite Forall_forall in Hcodes. apply Hcodes, list_elem_of_In, Hs.
Qed.

Lemma tables_hold_codes_witness :
  split_pipe (String.concat "|" ["en"; "de-formal"; "zh-min-nan"])
  = ["en"; "de-formal"; "zh-min-nan"].
Proof.
  apply tables_hold_codes.
  - discriminate.
  - assert (Hin : ∀ s, existsb (String.eqb s)
                         (possible_attributes ++ possible_entities ++ possible_languages)
                       = true →
                       In s (possible_attributes ++ possible_entities
                             ++ possible_languages)).
    { intros s Hs. apply existsb_exists in Hs as (x & Hx & Heq).
      apply String.eqb_eq in Heq. subst x. exact Hx. }
    repeat (apply List.Forall_cons; [apply Hin; vm_compute; reflexivity|]).
    apply List.Forall_nil.
Defined.
